(** * YouTube comment event extraction: the pipeline and its properties

    The development follows the three source files:
    - [main.py]: the persisted store ([load_existing_events], [save_events]),
      the merge ([merge_events]) and the entry point ([main]);
    - [src/analyzer.py]: the rule-based extractor ([EventAnalyzer]);
    - [src/fetcher.py]: video discovery, filtering and comment aggregation
      ([YouTubeCommentFetcher]).

    Python values are modelled as the program sees them: a [str] is the list of
    its code points, a [dict] is an insertion-ordered association list, an
    exception is the [Raise] branch of a result type. *)

From Stdlib Require Import ZArith String Ascii.
From stdpp Require Import base list gmap sorting.

Open Scope Z_scope.

(** ** Python values *)

Module Py.

(** A [str] is a sequence of Unicode code points; [len] counts code points and
    comparison is lexicographic on them. *)
Abbreviation pystr := (list N).

(** Literals are written as UTF-8 text and decoded to code points. *)
Fixpoint utf8_decode (bs : list N) : pystr :=
  match bs with
  | [] => []
  | b1 :: bs1 =>
      if (b1 <? 0x80)%N then b1 :: utf8_decode bs1
      else if (b1 <? 0xE0)%N then
        match bs1 with
        | b2 :: bs2 =>
            ((b1 - 0xC0) * 0x40 + (b2 - 0x80))%N :: utf8_decode bs2
        | _ => []
        end
      else if (b1 <? 0xF0)%N then
        match bs1 with
        | b2 :: b3 :: bs3 =>
            ((b1 - 0xE0) * 0x1000 + (b2 - 0x80) * 0x40 + (b3 - 0x80))%N
              :: utf8_decode bs3
        | _ => []
        end
      else
        match bs1 with
        | b2 :: b3 :: b4 :: bs4 =>
            ((b1 - 0xF0) * 0x40000 + (b2 - 0x80) * 0x1000
             + (b3 - 0x80) * 0x40 + (b4 - 0x80))%N :: utf8_decode bs4
        | _ => []
        end
  end.

Definition str (s : string) : pystr :=
  utf8_decode (N_of_ascii <$> list_ascii_of_string s).

Definition len {A} (l : list A) : Z := Z.of_nat (length l).

Inductive exn :=
| KeyError
| TypeError
| AttributeError
| ZeroDivisionError
| Exception.

Inductive result (A : Type) : Type :=
| Ok (a : A)
| Raise (e : exn).
Arguments Ok {A} a.
Arguments Raise {A} e.

#[global] Instance result_ret : MRet result := @Ok.
#[global] Instance result_bind : MBind result := λ A B f m,
  match m with
  | Ok a => f a
  | Raise e => Raise e
  end.

Fixpoint foldM {A B} (f : B → A → result B) (b : B) (l : list A) : result B :=
  match l with
  | [] => Ok b
  | x :: l' => b' ← f b x; foldM f b' l'
  end.

Fixpoint mapM {A B} (f : A → result B) (l : list A) : result (list B) :=
  match l with
  | [] => Ok []
  | x :: l' => y ← f x; ys ← mapM f l'; Ok (y :: ys)
  end.

(** The scalars a JSON document or an API response holds: [None], [bool],
    [int] and [str] (floats are not represented). *)
Inductive scalar :=
| SNone
| SBool (b : bool)
| SInt (z : Z)
| SStr (s : pystr).

#[global] Instance scalar_eq_dec : EqDecision scalar.
Proof. solve_decision. Defined.

(** A [dict] with [str] keys, in insertion order. Lookup takes the first
    binding of the key; [setitem] overwrites in place or appends. *)
Abbreviation pydict := (list (pystr * scalar)).

Fixpoint getitem_opt {K V} `{!EqDecision K} (k : K) (d : list (K * V)) : option V :=
  match d with
  | [] => None
  | (k', v) :: d' => if decide (k = k') then Some v else getitem_opt k d'
  end.

Fixpoint setitem {K V} `{!EqDecision K} (k : K) (v : V) (d : list (K * V)) : list (K * V) :=
  match d with
  | [] => [(k, v)]
  | (k', v') :: d' =>
      if decide (k = k') then (k', v) :: d' else (k', v') :: setitem k v d'
  end.

Definition values {K V} (d : list (K * V)) : list V := d.*2.

(** A value read from the store: a scalar, an array, or an object whose
    fields are scalars (the depth to which the program inspects a record;
    objects and arrays nested in a field are not represented). *)
#[warnings="-register-all"]
Inductive json :=
| JScalar (s : scalar)
| JList (l : list json)
| JObj (d : pydict).

(** [v[k]] for a [str] subscript [k]. *)
Definition getitem (v : json) (k : pystr) : result scalar :=
  match v with
  | JObj d =>
      match getitem_opt k d with
      | Some x => Ok x
      | None => Raise KeyError
      end
  | _ => Raise TypeError
  end.

(** [v.get(k, default)]. *)
Definition get (v : json) (k : pystr) (default : scalar) : result scalar :=
  match v with
  | JObj d => Ok (from_option id default (getitem_opt k d))
  | _ => Raise AttributeError
  end.

(** Dictionary keys are identified up to [==]: [True == 1] and [False == 0]. *)
Inductive pykey :=
| KNone
| KNum (z : Z)
| KStr (s : pystr).

#[global] Instance pykey_eq_dec : EqDecision pykey.
Proof. solve_decision. Defined.

Definition num_of_bool (b : bool) : Z := if b then 1 else 0.

Definition hash_key (s : scalar) : pykey :=
  match s with
  | SNone => KNone
  | SBool b => KNum (num_of_bool b)
  | SInt z => KNum z
  | SStr s => KStr s
  end.

(** [a < b] on two [str]: lexicographic on code points. *)
Fixpoint str_ltb (a b : pystr) : bool :=
  match a, b with
  | _, [] => false
  | [], _ :: _ => true
  | x :: a', y :: b' =>
      if (x <? y)%N then true
      else if (y <? x)%N then false
      else str_ltb a' b'
  end.

(** [a < b] on scalars: defined between two [str] and between two numbers,
    a [TypeError] otherwise. *)
Definition py_lt (a b : scalar) : result bool :=
  match a, b with
  | SStr x, SStr y => Ok (str_ltb x y)
  | SInt x, SInt y => Ok (x <? y)
  | SInt x, SBool y => Ok (x <? num_of_bool y)
  | SBool x, SInt y => Ok (num_of_bool x <? y)
  | SBool x, SBool y => Ok (num_of_bool x <? num_of_bool y)
  | _, _ => Raise TypeError
  end.

(** ** [list.sort]

    A stable sort that only uses [<]. The keys are computed once, before any
    comparison; each element is then inserted after the elements not greater
    than it, as CPython's insertion step does. With [reverse=True] (the flag
    [reversed]) the list is reversed before and after, which keeps the
    original order among equal keys. On scalar keys a comparison raises here
    in the cases where it raises in CPython: there are two keys or more and
    they are not all [str] or all numbers. *)
Section sort.
Context {A K : Type} (lt : K → K → result bool).

Fixpoint insort (x : K * A) (l : list (K * A)) : result (list (K * A)) :=
  match l with
  | [] => Ok [x]
  | y :: l' =>
      b ← lt x.1 y.1;
      if b : bool then Ok (x :: y :: l')
      else r ← insort x l'; Ok (y :: r)
  end.

Definition sort (key : A → result K) (reversed : bool) (l : list A)
  : result (list A) :=
  keyed ← mapM (λ x, k ← key x; Ok (k, x)) l;
  sorted ← foldM (λ acc x, insort x acc) []
                 (if reversed then reverse keyed else keyed);
  Ok ((if reversed then reverse sorted else sorted).*2).

End sort.

(** [p] may stand before [q] in ascending order: [q] is not below [p]. *)
Definition asc {A K} (ltb : K → K → bool) (p q : K * A) : Prop :=
  ltb q.1 p.1 = false.

(** The order [sort] leaves between two elements of its output, the first
    standing before the second, for keys compared by [ltb]. *)
Definition sorted_by {A K} (ltb : K → K → bool) (key : A → result K)
    (reversed : bool) (x y : A) : Prop :=
  ∀ kx ky, key x = Ok kx → key y = Ok ky →
    if reversed then ltb kx ky = false else ltb ky kx = false.

End Py.
Import Py.

(** ** The merge ([main.py]) *)

(** [existing_dict[event['comment_id']] = event] *)
Definition events_add (d : list (pykey * json)) (event : json)
  : result (list (pykey * json)) :=
  k ← getitem event (str "comment_id");
  Ok (setitem (hash_key k) event d).

Definition merge_events (existing_events new_events : list json)
  : result (list json) :=
  existing_dict ← foldM events_add [] existing_events;
  existing_dict ← foldM events_add existing_dict new_events;
  let merged_events := values existing_dict in
  sort py_lt (λ x, get x (str "extracted_at") (SStr [])) true merged_events.

(** ** What the Python runtime supplies

    The Unicode tables behind [\s], [\d], [str.strip] and [str.lower], and the
    [datetime] library, are taken as an interface. *)
Class Runtime := {
  isspace : N → bool;
  isdecimal : N → bool;
  lower : pystr → pystr;
  datetime : Type;
  isoformat : datetime → pystr;
  fromisoformat : pystr → option datetime;
  replace_tzinfo_none : datetime → datetime;
  days_between : datetime → datetime → Z
}.

(** ** Regular expressions ([re.search]) *)

Module Re.

Inductive regex :=
| Void
| Eps
| Chr (c : N)
| Cls (p : N → bool)
| Cat (r1 r2 : regex)
| Alt (r1 r2 : regex)
| Star (r : regex).

Definition Opt (r : regex) : regex := Alt Eps r.
Definition Plus (r : regex) : regex := Cat r (Star r).
(** [r{1,2}] and [r{2}] *)
Definition Rep12 (r : regex) : regex := Cat r (Opt r).
Definition Rep2 (r : regex) : regex := Cat r r.

Fixpoint lit (s : pystr) : regex :=
  match s with
  | [] => Eps
  | c :: s' => Cat (Chr c) (lit s')
  end.

Fixpoint alts (rs : list regex) : regex :=
  match rs with
  | [] => Void
  | [r] => r
  | r :: rs' => Alt r (alts rs')
  end.

Fixpoint nullable (r : regex) : bool :=
  match r with
  | Void => false
  | Eps => true
  | Chr _ => false
  | Cls _ => false
  | Cat r1 r2 => nullable r1 && nullable r2
  | Alt r1 r2 => nullable r1 || nullable r2
  | Star _ => true
  end.

(** The residual of [r] after reading [c]. *)
Fixpoint deriv (c : N) (r : regex) : regex :=
  match r with
  | Void => Void
  | Eps => Void
  | Chr c' => if (c =? c')%N then Eps else Void
  | Cls p => if p c then Eps else Void
  | Cat r1 r2 =>
      if nullable r1 then Alt (Cat (deriv c r1) r2) (deriv c r2)
      else Cat (deriv c r1) r2
  | Alt r1 r2 => Alt (deriv c r1) (deriv c r2)
  | Star r1 => Cat (deriv c r1) (Star r1)
  end.

(** Some prefix of [s] matches [r]. *)
Fixpoint match_prefix (r : regex) (s : pystr) : bool :=
  nullable r ||
  match s with
  | [] => false
  | c :: s' => match_prefix (deriv c r) s'
  end.

(** [re.search(r, s)] finds a match: at some position of [s], a prefix of the
    rest matches [r]. *)
Fixpoint search (r : regex) (s : pystr) : bool :=
  match_prefix r s ||
  match s with
  | [] => false
  | _ :: s' => search r s'
  end.

(** The language of [r], to state what [search] decides. *)
Inductive matches : regex → pystr → Prop :=
| m_eps : matches Eps []
| m_chr c : matches (Chr c) [c]
| m_cls (p : N → bool) c : p c = true → matches (Cls p) [c]
| m_cat r1 r2 s1 s2 :
    matches r1 s1 → matches r2 s2 → matches (Cat r1 r2) (s1 ++ s2)
| m_alt_l r1 r2 s : matches r1 s → matches (Alt r1 r2) s
| m_alt_r r1 r2 s : matches r2 s → matches (Alt r1 r2) s
| m_star_nil r : matches (Star r) []
| m_star_cons r s1 s2 :
    matches r s1 → matches (Star r) s2 → matches (Star r) (s1 ++ s2).

End Re.
Import Re.

(** ** The rule-based extractor ([src/analyzer.py]) *)

Module Analyzer.
Section analyzer.
Context `{Runtime}.

Definition event_keywords : list pystr :=
  [ str "開催"; str "集合"; str "ライブ"; str "オフ会"; str "発売"; str "スタート";
    str "場所"; str "チケット"; str "イベント"; str "会場"; str "参加"; str "予約";
    str "開始"; str "終了"; str "開催日"; str "日程"; str "日時" ].

Definition digit : regex := Cls isdecimal.
Definition nonspace : regex := Cls (λ c, negb (isspace c)).

Definition date_patterns : list regex :=
  [ Cat (Rep12 digit) (Cat (lit (str "月")) (Cat (Rep12 digit) (lit (str "日"))));
    Cat (Rep12 digit) (Cat (lit (str "/")) (Rep12 digit));
    Cat (Rep12 digit) (Cat (lit (str "-")) (Rep12 digit));
    lit (str "明日");
    lit (str "明後日");
    lit (str "来週");
    lit (str "来月");
    lit (str "今週");
    lit (str "今月");
    lit (str "土曜");
    lit (str "日曜");
    lit (str "月曜");
    lit (str "火曜");
    lit (str "水曜");
    lit (str "木曜");
    lit (str "金曜");
    Cat (Rep12 digit) (lit (str "時"));
    Cat (Rep12 digit) (Cat (lit (str ":")) (Rep2 digit));
    Cat (lit (str "午前")) (Cat (Rep12 digit) (lit (str "時")));
    Cat (lit (str "午後")) (Cat (Rep12 digit) (lit (str "時")));
    Cat (lit (str "AM")) (Rep12 digit);
    Cat (lit (str "PM")) (Rep12 digit) ].

(** [https?://[^\s]+|www\.[^\s]+|\.com|\.net|\.org|\.jp] *)
Definition url_pattern : regex :=
  alts [ Cat (lit (str "http")) (Cat (Opt (lit (str "s")))
           (Cat (lit (str "://")) (Plus nonspace)));
         Cat (lit (str "www.")) (Plus nonspace);
         lit (str ".com");
         lit (str ".net");
         lit (str ".org");
         lit (str ".jp") ].

Definition contains_future_date (text : pystr) : bool :=
  existsb (λ pattern, search pattern text) date_patterns.

(** [p in s] on two [str]. *)
Fixpoint startswith (p s : pystr) : bool :=
  match p, s with
  | [], _ => true
  | _ :: _, [] => false
  | a :: p', b :: s' => (a =? b)%N && startswith p' s'
  end.

Fixpoint contains (p s : pystr) : bool :=
  startswith p s ||
  match s with
  | [] => false
  | _ :: s' => contains p s'
  end.

Definition contains_event_keyword (text : pystr) : bool :=
  let text_lower := lower text in
  existsb (λ keyword, contains keyword text_lower) event_keywords.

Fixpoint lstrip (s : pystr) : pystr :=
  match s with
  | [] => []
  | c :: s' => if isspace c then lstrip s' else s
  end.

Definition strip (s : pystr) : pystr :=
  reverse (lstrip (reverse (lstrip s))).

Definition is_spam (text : pystr) : bool :=
  if search url_pattern text then true
  else
    let text_length := len (strip text) in
    if (text_length <? 5) || (500 <? text_length) then true else false.

(** [comment.get(k)] and [comment.get(k, default)] on a comment. *)
Definition dict_get (d : pydict) (k : pystr) (default : scalar) : scalar :=
  from_option id default (getitem_opt k d).

(** [now] is the reading of the clock taken when the record is built. *)
Definition extract_event_info (now : datetime) (comment : pydict)
  : result (option pydict) :=
  match dict_get comment (str "text") (SStr []) with
  | SStr text =>
      if is_spam text then Ok None
      else if negb (contains_future_date text) then Ok None
      else if negb (contains_event_keyword text) then Ok None
      else Ok (Some
        [ (str "comment_id", dict_get comment (str "comment_id") SNone);
          (str "text", SStr text);
          (str "author", dict_get comment (str "author") SNone);
          (str "published_at", dict_get comment (str "published_at") SNone);
          (str "extracted_at", SStr (isoformat now ++ str "Z")) ])
  | _ => Raise TypeError
  end.

(** The clock is read once per extracted record: [utcnow] is its sequence of
    readings and [tick] the number of readings taken so far. *)
Fixpoint analyze_comments (utcnow : nat → datetime) (tick : nat)
    (comments : list pydict) : result (list pydict * nat) :=
  match comments with
  | [] => Ok ([], tick)
  | comment :: rest =>
      event_info ← extract_event_info (utcnow tick) comment;
      match event_info with
      | Some e =>
          '(events, tick') ← analyze_comments utcnow (S tick) rest;
          Ok (e :: events, tick')
      | None => analyze_comments utcnow tick rest
      end
  end.

End analyzer.
End Analyzer.
Import Analyzer.

(** ** The comment source and the video filter ([src/fetcher.py]) *)

Module Fetcher.

(** The outcome of [request.execute()]: a response, an [HttpError] with its
    status, or any other exception. *)
Inductive api_result (A : Type) : Type :=
| Response (a : A)
| HttpError (status : Z)
| Failure.
Arguments Response {A} a.
Arguments HttpError {A} status.
Arguments Failure {A}.

(** One page of a list operation. [items] is absent when the response has no
    ['items'] key; [nextPage], present when the response carries a
    [nextPageToken], gives the outcome of the request for the following page
    as a function of the [maxResults] it is sent with. *)
#[warnings="-register-all"]
Inductive page (I : Type) : Type :=
| Page (items : option (list I))
       (nextPage : option (Z → api_result (page I))).
Arguments Page {I} items nextPage.

Definition items {I} (p : page I) : option (list I) :=
  match p with Page its _ => its end.

Definition nextPage {I} (p : page I) : option (Z → api_result (page I)) :=
  match p with Page _ nxt => nxt end.

Record thread := {
  thread_id : pystr;
  textDisplay : pystr;
  authorDisplayName : pystr;
  publishedAt : pystr
}.

Record search_item := { kind : pystr; videoId : pystr }.

Record video := {
  video_item_id : pystr;
  commentCount : option Z;
  viewCount : option Z;
  video_publishedAt : option pystr;
  video_title : option pystr
}.

(** The API client built for the key, one field per request the program
    issues. *)
Record youtube := {
  commentThreads_list : pystr → Z → api_result (page thread);
  channels_list : pystr → api_result (list pystr);
  playlistItems_list : pystr → Z → api_result (list pystr);
  videos_list : list pystr → api_result (list video);
  search_list_q : pystr → Z → pystr → api_result (page search_item);
  search_list_category : pystr → Z → pystr → api_result (page search_item)
}.

(** [l[:n]] *)
Definition slice_to {A} (n : Z) (l : list A) : list A :=
  if 0 <=? n then take (Z.to_nat n) l
  else take (length l - Z.to_nat (- n)) l.

Definition floordiv (a b : Z) : result Z :=
  if b =? 0 then Raise ZeroDivisionError else Ok (a / b).

(** The [for item in response['items']] loop: stop at [limit], keep the items
    [f] accepts. *)
Fixpoint extend {I X} (f : I → option X) (limit : Z) (acc : list X)
    (its : list I) : list X :=
  match its with
  | [] => acc
  | item :: rest =>
      if limit <=? len acc then acc
      else match f item with
           | Some x => extend f limit (acc ++ [x]) rest
           | None => extend f limit acc rest
           end
  end.

(** The [while len(acc) < limit and 'items' in response] loop shared by the
    three paginated operations; [cap] is the page size the API allows. *)
Fixpoint page_loop {I X} (f : I → option X) (cap limit : Z) (acc : list X)
    (response : page I) : api_result (list X) :=
  match response with
  | Page its nxt =>
      if len acc <? limit then
        match its with
        | Some its =>
            let acc := extend f limit acc its in
            match nxt with
            | Some next =>
                if len acc <? limit then
                  match next (Z.min (limit - len acc) cap) with
                  | Response response' => page_loop f cap limit acc response'
                  | HttpError status => HttpError status
                  | Failure => Failure
                  end
                else Response acc
            | None => Response acc
            end
        | None => Response acc
        end
      else Response acc
  end.

Definition comment_of (item : thread) : option pydict :=
  Some [ (str "comment_id", SStr (thread_id item));
         (str "text", SStr (textDisplay item));
         (str "author", SStr (authorDisplayName item));
         (str "published_at", SStr (publishedAt item)) ].

(** Every exception ends in [return []]. *)
Definition or_empty {A} (r : api_result (list A)) : list A :=
  match r with
  | Response l => l
  | _ => []
  end.

Definition get_video_comments (yt : youtube) (video_id : pystr)
    (max_results : Z) : list pydict :=
  or_empty
    match commentThreads_list yt video_id (Z.min max_results 100) with
    | Response response => page_loop comment_of 100 max_results [] response
    | HttpError status => HttpError status
    | Failure => Failure
    end.

Definition get_channel_latest_videos (yt : youtube) (channel_id : pystr)
    (max_results : Z) : list pystr :=
  match channels_list yt channel_id with
  | Response [] => []
  | Response (uploads_playlist_id :: _) =>
      or_empty (playlistItems_list yt uploads_playlist_id max_results)
  | _ => []
  end.

Record stats := {
  comment_count : Z;
  view_count : Z;
  published_at : pystr;
  title : pystr
}.

Definition stats_of (item : video) : stats :=
  {| comment_count := default 0 (commentCount item);
     view_count := default 0 (viewCount item);
     published_at := default [] (video_publishedAt item);
     title := default [] (video_title item) |}.

(** [range(0, len(video_ids), 50)]: the batches, at most [fuel] of them. *)
Fixpoint batches {A} (fuel : nat) (l : list A) : list (list A) :=
  match fuel, l with
  | O, _ => []
  | _, [] => []
  | S fuel', _ => take 50 l :: batches fuel' (drop 50 l)
  end.

Fixpoint statistics_loop (yt : youtube) (statistics : gmap pystr stats)
    (bs : list (list pystr)) : api_result (gmap pystr stats) :=
  match bs with
  | [] => Response statistics
  | batch_ids :: bs' =>
      match videos_list yt batch_ids with
      | Response its =>
          statistics_loop yt
            (foldl (λ st item, <[video_item_id item := stats_of item]> st)
                   statistics its) bs'
      | HttpError status => HttpError status
      | Failure => Failure
      end
  end.

Definition get_video_statistics (yt : youtube) (video_ids : list pystr)
  : gmap pystr stats :=
  match video_ids with
  | [] => ∅
  | _ =>
      match statistics_loop yt ∅ (batches (length video_ids) video_ids) with
      | Response statistics => statistics
      | _ => ∅
      end
  end.

Record candidate := {
  video_id : pystr;
  c_comment_count : Z;
  days_old : Z;
  c_published_at : pystr
}.

Definition video_of (item : search_item) : option pystr :=
  if decide (kind item = str "youtube#video") then Some (videoId item)
  else None.

(** [s.replace('Z', '+00:00')] *)
Definition replace_Z (s : pystr) : pystr :=
  c ← s; if (c =? 90)%N then str "+00:00" else [c].

(** [(-a.comment_count, a.days_old) < (-b.comment_count, b.days_old)] *)
Definition rank_ltb (a b : Z * Z) : bool :=
  if a.1 =? b.1 then a.2 <? b.2 else a.1 <? b.1.

Section filter.
Context `{Runtime}.

(** One turn of the filtering loop: the entry appended for [video_id], or
    [None] when the loop continues without appending. *)
Definition filter_video (statistics : gmap pystr stats) (now : datetime)
    (min_comment_count days_old_max : Z) (video_id : pystr)
  : option candidate :=
  match statistics !! video_id with
  | None => None
  | Some stats =>
      let comment_count := comment_count stats in
      let published_at_str := published_at stats in
      if comment_count <? min_comment_count then None
      else
        match fromisoformat (replace_Z published_at_str) with
        | Some published_at =>
            let days_old := days_between now (replace_tzinfo_none published_at) in
            if days_old_max <? days_old then None
            else Some {| video_id := video_id;
                         c_comment_count := comment_count;
                         days_old := days_old;
                         c_published_at := published_at_str |}
        | None => None
        end
  end.

Definition filtered_videos (statistics : gmap pystr stats) (now : datetime)
    (min_comment_count days_old_max : Z) (candidate_video_ids : list pystr)
  : list candidate :=
  omap (filter_video statistics now min_comment_count days_old_max)
       candidate_video_ids.

(** The sort of the survivors and the cut to [max_videos]. *)
Definition result_video_ids (max_videos : Z) (filtered_videos : list candidate)
  : result (list pystr) :=
  sorted ← sort (λ a b, Ok (rank_ltb a b))
                (λ x, Ok (- c_comment_count x, days_old x)) false
                filtered_videos;
  Ok (video_id <$> slice_to max_videos sorted).

(** The clock is read once, after a non-empty candidate pool was found. *)
Definition search_videos_by_keyword (yt : youtube) (utcnow : nat → datetime)
    (tick : nat) (keyword : pystr) (max_videos : Z) (order : pystr)
    (min_comment_count days_old_max : Z) : list pystr * nat :=
  let search_limit := max_videos * 3 in
  match search_list_q yt keyword (Z.min search_limit 50) order with
  | Response response =>
      match page_loop video_of 50 search_limit [] response with
      | Response [] => ([], tick)
      | Response candidate_video_ids =>
          let statistics := get_video_statistics yt candidate_video_ids in
          let now := utcnow tick in
          match result_video_ids max_videos
                  (filtered_videos statistics now min_comment_count
                     days_old_max candidate_video_ids) with
          | Ok ids => (ids, S tick)
          | Raise _ => ([], S tick)
          end
      | _ => ([], tick)
      end
  | _ => ([], tick)
  end.

End filter.

Definition search_videos_by_category (yt : youtube) (category_id : pystr)
    (max_videos : Z) (order : pystr) : list pystr :=
  or_empty
    match search_list_category yt category_id (Z.min max_videos 50) order with
    | Response response => page_loop video_of 50 max_videos [] response
    | HttpError status => HttpError status
    | Failure => Failure
    end.

(** An optional argument is taken when it is neither [None] nor empty. *)
Definition truthy (o : option pystr) : bool :=
  match o with
  | Some (_ :: _) => true
  | _ => false
  end.

Inductive branch :=
| ByVideo
| ByChannel
| ByKeyword
| ByCategory
| NoTarget.

(** The [if]/[elif] chain of [fetch_comments], in the order it is written. *)
Definition branch_taken (video_id channel_id category_id search_keyword
    : option pystr) : branch :=
  if truthy video_id then ByVideo
  else if truthy channel_id then ByChannel
  else if truthy search_keyword then ByKeyword
  else if truthy category_id then ByCategory
  else NoTarget.

(** The [for vid in video_ids] loop of the three multi-video branches.
    [per_video] is the expression passed to [get_video_comments], evaluated
    when the loop body runs. *)
Fixpoint collect (yt : youtube) (per_video : result Z) (max_results : Z)
    (all_comments : list pydict) (video_ids : list pystr)
  : result (list pydict) :=
  match video_ids with
  | [] => Ok all_comments
  | vid :: rest =>
      n ← per_video;
      let all_comments := all_comments ++ get_video_comments yt vid n in
      if max_results <=? len all_comments then Ok all_comments
      else collect yt per_video max_results all_comments rest
  end.

Definition comments_per_video (max_results : Z) (video_ids : list pystr)
  : result Z :=
  q ← floordiv max_results (len video_ids); Ok (q + 1).

Section fetch.
Context `{Runtime}.

Definition fetch_comments (yt : youtube) (utcnow : nat → datetime) (tick : nat)
    (video_id channel_id category_id search_keyword : option pystr)
    (max_videos max_results min_comment_count days_old_max : Z)
  : result (list pydict * nat) :=
  match branch_taken video_id channel_id category_id search_keyword with
  | ByVideo =>
      Ok (get_video_comments yt (default [] video_id) max_results, tick)
  | ByChannel =>
      let video_ids := get_channel_latest_videos yt (default [] channel_id) 5 in
      all_comments ←
        collect yt (comments_per_video max_results video_ids) max_results []
                video_ids;
      Ok (slice_to max_results all_comments, tick)
  | ByKeyword =>
      let '(video_ids, tick) :=
        search_videos_by_keyword yt utcnow tick (default [] search_keyword)
          max_videos (str "date") min_comment_count days_old_max in
      match video_ids with
      | [] => Ok ([], tick)
      | _ =>
          comments_per_video ← comments_per_video max_results video_ids;
          all_comments ←
            collect yt (Ok comments_per_video) max_results [] video_ids;
          Ok (slice_to max_results all_comments, tick)
      end
  | ByCategory =>
      let video_ids :=
        search_videos_by_category yt (default [] category_id) max_videos
          (str "date") in
      match video_ids with
      | [] => Ok ([], tick)
      | _ =>
          comments_per_video ← comments_per_video max_results video_ids;
          all_comments ←
            collect yt (Ok comments_per_video) max_results [] video_ids;
          Ok (slice_to max_results all_comments, tick)
      end
  | NoTarget => Ok ([], tick)
  end.

End fetch.
End Fetcher.
Import Fetcher.

(** ** The entry point ([main.py]) *)

Module Main.

(** What [data_file] holds when the program starts: no file, a file that
    cannot be read, text that is not JSON, or a JSON document. *)
Inductive file_state :=
| Absent
| Unreadable
| NotJson
| Document (data : json).

Definition load_existing_events (data_file : file_state) : list json :=
  match data_file with
  | Absent => []
  | Document (JList data) => data
  | Document _ => []
  | NotJson => []
  | Unreadable => []
  end.

(** The file system under [data_file]: its content, whether a write goes
    through, and what a write that raises leaves behind. *)
Record disk := {
  data_file : file_state;
  writable : bool;
  after_failed_write : file_state
}.

Definition save_events (d : disk) (events : list json) : disk * bool :=
  if writable d then
    ({| data_file := Document (JList events);
        writable := writable d;
        after_failed_write := after_failed_write d |}, true)
  else
    ({| data_file := after_failed_write d;
        writable := writable d;
        after_failed_write := after_failed_write d |}, false).

(** The environment variables read by [main], the integers already parsed. *)
Record environ := {
  YOUTUBE_API_KEY : option pystr;
  VIDEO_ID : option pystr;
  CHANNEL_ID : option pystr;
  CATEGORY_ID : option pystr;
  SEARCH_KEYWORD : option pystr;
  MAX_VIDEOS : option Z;
  MAX_RESULTS : option Z;
  MIN_COMMENT_COUNT : option Z;
  DAYS_OLD_MAX : option Z
}.

(** What a run leaves: the exit status, the list handed to [save_events] if
    it was called, and the file system afterwards. *)
Record outcome := {
  exit_status : Z;
  saved : option (list json);
  disk_after : disk
}.

(** The [search_keyword] argument [main] hands to [fetch_comments]. *)
Definition search_keyword_arg (video_id channel_id category_id : option pystr)
    (search_keyword : pystr) : option pystr :=
  if negb (truthy video_id) && negb (truthy channel_id)
     && negb (truthy category_id)
  then Some search_keyword else None.

Section main.
Context `{Runtime}.

(** [build] is the construction of the API client, [None] when it raises;
    [utcnow] is the clock. *)
Definition main (env : environ) (d : disk) (build : pystr → option youtube)
    (utcnow : nat → datetime) : outcome :=
  let api_key := YOUTUBE_API_KEY env in
  let video_id := VIDEO_ID env in
  let channel_id := CHANNEL_ID env in
  let category_id := CATEGORY_ID env in
  let search_keyword := default (str "副業") (SEARCH_KEYWORD env) in
  let max_videos := default 20 (MAX_VIDEOS env) in
  let max_results := default 100 (MAX_RESULTS env) in
  let min_comment_count := default 10 (MIN_COMMENT_COUNT env) in
  let days_old_max := default 7 (DAYS_OLD_MAX env) in
  let leave status :=
    {| exit_status := status; saved := None; disk_after := d |} in
  if negb (truthy api_key) then leave 1
  else
    let existing_events := load_existing_events (data_file d) in
    let body : result outcome :=
      fetcher ← from_option Ok (Raise Exception) (build (default [] api_key));
      '(comments, tick) ←
        fetch_comments fetcher utcnow 0 video_id channel_id category_id
          (search_keyword_arg video_id channel_id category_id search_keyword)
          max_videos max_results min_comment_count days_old_max;
      match comments with
      | [] => Ok (leave 0)
      | _ =>
          '(new_events, _) ← analyze_comments utcnow tick comments;
          match new_events with
          | [] => Ok (leave 0)
          | _ =>
              merged_events ← merge_events existing_events (JObj <$> new_events);
              if len merged_events =? len existing_events then Ok (leave 0)
              else
                let '(d', ok) := save_events d merged_events in
                Ok {| exit_status := if ok then 0 else 1;
                      saved := Some merged_events;
                      disk_after := d' |}
          end
      end in
    match body with
    | Ok o => o
    | Raise _ => leave 1
    end.

End main.
End Main.
Import Main.

(** * Vocabulary of the specification *)

(** ** Records of the store *)

#[global] Instance pykey_countable : Countable pykey.
Proof.
  refine (inj_countable'
    (λ k, match k with
          | KNone => inl ()
          | KNum z => inr (inl z)
          | KStr s => inr (inr s)
          end)
    (λ x, match x with
          | inl _ => KNone
          | inr (inl z) => KNum z
          | inr (inr s) => KStr s
          end) _).
  by intros [].
Defined.

(** The identity of a record: its [comment_id] as a dictionary key, when the
    value is an object that has one. *)
Definition comment_id_key (e : json) : option pykey :=
  match getitem e (str "comment_id") with
  | Ok s => Some (hash_key s)
  | Raise _ => None
  end.

(** The string a record is sorted by: its [extracted_at], the empty string
    when the field is missing; undefined when the field is not a [str]. *)
Definition extracted_at_key (e : json) : option pystr :=
  match get e (str "extracted_at") (SStr []) with
  | Ok (SStr s) => Some s
  | _ => None
  end.

Definition has_extracted_at (e : json) : bool :=
  match e with
  | JObj d => bool_decide (is_Some (getitem_opt (str "extracted_at") d))
  | _ => false
  end.

(** A record [merge_events] accepts: an object with a [comment_id] whose
    [extracted_at], if any, is a [str]. *)
Definition well_formed (e : json) : Prop :=
  is_Some (comment_id_key e) ∧ is_Some (extracted_at_key e).

(** The mapping the specification describes: keyed by [comment_id], seeded
    with the existing records, each incoming record then inserted in order. *)
Definition insert_record (m : gmap pykey json) (e : json) : gmap pykey json :=
  match comment_id_key e with
  | Some k => <[k := e]> m
  | None => m
  end.

Definition merged_mapping (existing incoming : list json) : gmap pykey json :=
  foldl insert_record (foldl insert_record ∅ existing) incoming.

(** The dictionary [merge_events] builds, when no subscript raises. *)
Definition dict_add (d : list (pykey * json)) (e : json) : list (pykey * json) :=
  match comment_id_key e with
  | Some k => setitem k e d
  | None => d
  end.

(** [a < b] between two sort keys that are both [str]. *)
Definition key_ltb (a b : scalar) : bool :=
  match a, b with
  | SStr x, SStr y => str_ltb x y
  | _, _ => false
  end.

Definition is_str (a : scalar) : Prop := ∃ s, a = SStr s.


(** Sample records of the store. *)
Definition sample_record (id text extracted : string) : json :=
  JObj [ (str "comment_id", SStr (str id));
         (str "text", SStr (str text));
         (str "author", SStr (str "alice"));
         (str "published_at", SStr (str "2024-01-01T00:00:00Z"));
         (str "extracted_at", SStr (str extracted)) ].

Definition record_without_extracted_at : json :=
  JObj [ (str "comment_id", SStr (str "a")) ].

Definition record_with_empty_extracted_at : json :=
  JObj [ (str "comment_id", SStr (str "b")); (str "extracted_at", SStr []) ].


(** ** Texts the extractor rejects as URL-like *)

Definition contains_str (w s : pystr) : Prop := ∃ pre post, s = pre ++ w ++ post.

Section url_like.
Context `{Runtime}.

(** [w] followed by at least one character that is not white space. *)
Definition contains_prefixed (w s : pystr) : Prop :=
  ∃ pre c post, s = pre ++ w ++ c :: post ∧ isspace c = false.

Definition url_like (text : pystr) : Prop :=
  contains_prefixed (str "http://") text ∨
  contains_prefixed (str "https://") text ∨
  contains_prefixed (str "www.") text ∨
  contains_str (str ".com") text ∨
  contains_str (str ".net") text ∨
  contains_str (str ".org") text ∨
  contains_str (str ".jp") text.

(** The record [extract_event_info] builds for an accepted comment. *)
Definition event_record (now : datetime) (comment : pydict) (text : pystr)
  : pydict :=
  [ (str "comment_id", dict_get comment (str "comment_id") SNone);
    (str "text", SStr text);
    (str "author", dict_get comment (str "author") SNone);
    (str "published_at", dict_get comment (str "published_at") SNone);
    (str "extracted_at", SStr (isoformat now ++ str "Z")) ].

End url_like.

(** ** A reference runtime

    The tables of Unicode 14.0 for white space and decimal digits, [lower] on
    the ASCII letters, and a [datetime] with second resolution that reads and
    prints [YYYY-MM-DDTHH:MM:SS], with an optional [+00:00] when read. *)

Module Reference.

Definition whitespace : list N :=
  [ 0x9; 0xA; 0xB; 0xC; 0xD; 0x1C; 0x1D; 0x1E; 0x1F; 0x20; 0x85; 0xA0; 0x1680;
    0x2000; 0x2001; 0x2002; 0x2003; 0x2004; 0x2005; 0x2006; 0x2007; 0x2008;
    0x2009; 0x200A; 0x2028; 0x2029; 0x202F; 0x205F; 0x3000 ]%N.

(** Each block of decimal digits: its first code point and its size. *)
Definition decimal_blocks : list (N * N) :=
  [ (0x30, 10); (0x660, 10); (0x6F0, 10); (0x7C0, 10); (0x966, 10);
    (0x9E6, 10); (0xA66, 10); (0xAE6, 10); (0xB66, 10); (0xBE6, 10);
    (0xC66, 10); (0xCE6, 10); (0xD66, 10); (0xDE6, 10); (0xE50, 10);
    (0xED0, 10); (0xF20, 10); (0x1040, 10); (0x1090, 10); (0x17E0, 10);
    (0x1810, 10); (0x1946, 10); (0x19D0, 10); (0x1A80, 10); (0x1A90, 10);
    (0x1B50, 10); (0x1BB0, 10); (0x1C40, 10); (0x1C50, 10); (0xA620, 10);
    (0xA8D0, 10); (0xA900, 10); (0xA9D0, 10); (0xA9F0, 10); (0xAA50, 10);
    (0xABF0, 10); (0xFF10, 10); (0x104A0, 10); (0x10D30, 10);
    (0x11066, 10); (0x110F0, 10); (0x11136, 10); (0x111D0, 10);
    (0x112F0, 10); (0x11450, 10); (0x114D0, 10); (0x11650, 10);
    (0x116C0, 10); (0x11730, 10); (0x118E0, 10); (0x11950, 10);
    (0x11C50, 10); (0x11D50, 10); (0x11DA0, 10); (0x16A60, 10);
    (0x16AC0, 10); (0x16B50, 10); (0x1D7CE, 50); (0x1E140, 10);
    (0x1E2F0, 10); (0x1E950, 10); (0x1FBF0, 10) ]%N.

Definition ref_isspace (c : N) : bool := existsb (N.eqb c) whitespace.

Definition ref_isdecimal (c : N) : bool :=
  existsb (λ b : N * N, (b.1 <=? c)%N && (c <? b.1 + b.2)%N) decimal_blocks.

Definition ref_lower (s : pystr) : pystr :=
  (λ c, if (65 <=? c)%N && (c <=? 90)%N then (c + 32)%N else c) <$> s.

Record dt := {
  year : Z;
  month : Z;
  day : Z;
  hour : Z;
  minute : Z;
  second : Z
}.

Definition digit_char (d : Z) : N := (48 + Z.to_N (d mod 10))%N.

Definition pad2 (n : Z) : pystr := [digit_char (n / 10); digit_char n].

Definition pad4 (n : Z) : pystr :=
  [digit_char (n / 1000); digit_char (n / 100); digit_char (n / 10);
   digit_char n].

Definition ref_isoformat (t : dt) : pystr :=
  pad4 (year t) ++ str "-" ++ pad2 (month t) ++ str "-" ++ pad2 (day t)
  ++ str "T" ++ pad2 (hour t) ++ str ":" ++ pad2 (minute t) ++ str ":"
  ++ pad2 (second t).

Definition digit_val (c : N) : option Z :=
  if (48 <=? c)%N && (c <=? 57)%N then Some (Z.of_N c - 48) else None.

Fixpoint number (cs : pystr) (acc : Z) : option Z :=
  match cs with
  | [] => Some acc
  | c :: cs' => d ← digit_val c; number cs' (acc * 10 + d)
  end.

Definition ref_fromisoformat (s : pystr) : option dt :=
  match s with
  | y1 :: y2 :: y3 :: y4 :: 45%N :: m1 :: m2 :: 45%N :: d1 :: d2 :: 84%N
      :: h1 :: h2 :: 58%N :: i1 :: i2 :: 58%N :: s1 :: s2 :: rest =>
      if bool_decide (rest = [] ∨ rest = str "+00:00") then
        y ← number [y1; y2; y3; y4] 0;
        m ← number [m1; m2] 0;
        d ← number [d1; d2] 0;
        h ← number [h1; h2] 0;
        i ← number [i1; i2] 0;
        sec ← number [s1; s2] 0;
        if bool_decide (1 ≤ m ≤ 12 ∧ 1 ≤ d ≤ 31 ∧ h < 24 ∧ i < 60 ∧ sec < 60)
        then Some {| year := y; month := m; day := d;
                     hour := h; minute := i; second := sec |}
        else None
      else None
  | _ => None
  end.

(** Days from 1970-01-01 to the given civil date. *)
Definition days_from_civil (y m d : Z) : Z :=
  let y := if m <=? 2 then y - 1 else y in
  let era := y / 400 in
  let yoe := y - era * 400 in
  let doy := (153 * (if 2 <? m then m - 3 else m + 9) + 2) / 5 + d - 1 in
  let doe := yoe * 365 + yoe / 4 - yoe / 100 + doy in
  era * 146097 + doe - 719468.

Definition seconds (t : dt) : Z :=
  days_from_civil (year t) (month t) (day t) * 86400
  + hour t * 3600 + minute t * 60 + second t.

Definition ref_days_between (a b : dt) : Z := (seconds a - seconds b) / 86400.

Definition runtime : Runtime :=
  {| isspace := ref_isspace;
     isdecimal := ref_isdecimal;
     lower := ref_lower;
     datetime := dt;
     isoformat := ref_isoformat;
     fromisoformat := ref_fromisoformat;
     replace_tzinfo_none := id;
     days_between := ref_days_between |}.

(** A clock that stands at noon on 2024-05-10 and advances by one second at
    each reading. *)
Definition clock (tick : nat) : dt :=
  {| year := 2024; month := 5; day := 10;
     hour := 12; minute := 0; second := Z.of_nat tick |}.

End Reference.

(** ** Sample comments *)

Definition sample_comment (id text : string) : pydict :=
  [ (str "comment_id", SStr (str id));
    (str "text", SStr (str text));
    (str "author", SStr (str "alice"));
    (str "published_at", SStr (str "2024-05-09T08:30:00Z")) ].

Definition announcement : string := "来週の土曜日に新宿でオフ会を開催します".
Definition undated : string := "新宿でオフ会を開催します".


(** ** Vocabulary of the video filter and of the aggregation *)

(** [a] may stand before [b]: more comments first, the more recent video
    first among equals. *)
Definition ranked_before (a b : candidate) : Prop :=
  c_comment_count b < c_comment_count a
  ∨ (c_comment_count a = c_comment_count b ∧ days_old a ≤ days_old b).




(** ** A sample service

    Three videos are found for the keyword and one for the category; each
    video has the comments listed for it. *)

Definition sample_thread (id text : string) : thread :=
  {| thread_id := str id;
     textDisplay := str text;
     authorDisplayName := str "alice";
     publishedAt := str "2024-05-09T08:30:00Z" |}.

Definition sample_threads (video_id : pystr) : list thread :=
  if decide (video_id = str "v1") then
    [sample_thread "c1" announcement; sample_thread "c2" "いいね"]
  else if decide (video_id = str "v2") then
    [sample_thread "c3" undated]
  else if decide (video_id = str "v4") then
    [sample_thread "c4" "明日の会場はここです"]
  else [].

Definition sample_video (id : string) (comments : Z) (published : string)
  : video :=
  {| video_item_id := str id;
     commentCount := Some comments;
     viewCount := Some 1000;
     video_publishedAt := Some (str published);
     video_title := Some (str "title") |}.

Definition video_item (id : string) : search_item :=
  {| kind := str "youtube#video"; videoId := str id |}.

Definition sample_youtube : youtube :=
  {| commentThreads_list video_id max_results :=
       Response (Page (Some (take (Z.to_nat max_results)
                               (sample_threads video_id))) None);
     channels_list channel_id := Response [str "uploads"];
     playlistItems_list playlist_id max_results := Response [str "v1"; str "v2"];
     videos_list ids :=
       Response [ sample_video "v1" 10 "2024-05-09T08:30:00Z";
                  sample_video "v2" 9 "2024-05-09T08:30:00Z";
                  sample_video "v3" 50 "2024-04-01T00:00:00Z";
                  sample_video "v5" 10 "2024-05-10T08:30:00Z" ];
     search_list_q q max_results order :=
       Response (Page (Some [video_item "v1"; video_item "v2";
                             video_item "v3"; video_item "v5"]) None);
     search_list_category category_id max_results order :=
       Response (Page (Some [video_item "v4"]) None) |}.


(** ** A sample run

    The key is set and [VIDEO_ID] names the first sample video; the data
    file holds the given content and can be written. *)

Definition sample_environ : environ :=
  {| YOUTUBE_API_KEY := Some (str "key");
     VIDEO_ID := Some (str "v1");
     CHANNEL_ID := None;
     CATEGORY_ID := None;
     SEARCH_KEYWORD := None;
     MAX_VIDEOS := None;
     MAX_RESULTS := None;
     MIN_COMMENT_COUNT := None;
     DAYS_OLD_MAX := None |}.

Definition sample_disk (content : file_state) : disk :=
  {| data_file := content; writable := true; after_failed_write := content |}.

Definition sample_build (api_key : pystr) : option youtube := Some sample_youtube.

(** The record the sample run extracts from the first comment of [v1]. *)
Definition extracted_c1 : json :=
  JObj [ (str "comment_id", SStr (str "c1"));
         (str "text", SStr (str announcement));
         (str "author", SStr (str "alice"));
         (str "published_at", SStr (str "2024-05-09T08:30:00Z"));
         (str "extracted_at", SStr (str "2024-05-10T12:00:00Z")) ].


(** ** Vocabulary of the paginated operations *)

(** The items of the pages the loop can be served, starting at a given
    page: those of the page itself and those of any page a follow-up
    request answers with. *)
Inductive page_item {I : Type} : page I → I → Prop :=
| item_here (its : list I) nxt (i : I) :
    i ∈ its → page_item (Page (Some its) nxt) i
| item_later its (next : Z → api_result (page I)) (n : Z) (p : page I) (i : I) :
    next n = Response p → page_item p i → page_item (Page its (Some next)) i.

(** The comment built from a comment thread. *)
Definition thread_comment (item : thread) : pydict :=
  [ (str "comment_id", SStr (thread_id item));
    (str "text", SStr (textDisplay item));
    (str "author", SStr (authorDisplayName item));
    (str "published_at", SStr (publishedAt item)) ].



(** The items the service returns for a list of batches, in order. *)
Definition batch_items (yt : youtube) (bs : list (list pystr)) : list video :=
  batch_ids ← bs;
  match videos_list yt batch_ids with
  | Response its => its
  | _ => []
  end.


(** ** Vocabulary of the extraction *)

Section extraction.
Context `{Runtime}.

(** The comment has a text that is a [str], or no text at all. *)
Definition str_text (comment : pydict) : Prop :=
  ∃ text, dict_get comment (str "text") (SStr []) = SStr text.

Definition text_of (comment : pydict) : pystr :=
  match dict_get comment (str "text") (SStr []) with
  | SStr text => text
  | _ => []
  end.

(** The comment passes the three checks. *)
Definition accepts (comment : pydict) : bool :=
  negb (is_spam (text_of comment))
  && contains_future_date (text_of comment)
  && contains_event_keyword (text_of comment).

End extraction.


(** ** Vocabulary of the date check *)

(** The date expressions that are plain words: tomorrow, the day after,
    next and this week and month, and the days of the week. *)
Definition date_words : list pystr :=
  [ str "明日"; str "明後日"; str "来週"; str "来月"; str "今週"; str "今月";
    str "土曜"; str "日曜"; str "月曜"; str "火曜"; str "水曜"; str "木曜";
    str "金曜" ].

Definition has_decimal `{Runtime} (s : pystr) : Prop :=
  ∃ c, c ∈ s ∧ isdecimal c = true.


Definition record_with_null_extracted_at : json :=
  JObj [ (str "comment_id", SStr (str "n")); (str "extracted_at", SNone) ].

(** * Properties *)

(** ** The result monad *)

Lemma bind_Ok {A B} (f : A → result B) (a : A) : (Ok a ≫= f) = f a.
Proof. reflexivity. Qed.

Lemma bind_Ok_inv {A B} (f : A → result B) (m : result A) (b : B) :
  (m ≫= f) = Ok b → ∃ a, m = Ok a ∧ f a = Ok b.
Proof. destruct m as [a|e]; [eauto | discriminate]. Qed.

(** ** [list.sort] on keys that compare *)

Section sort_facts.
Context {A K : Type} (lt : K → K → result bool) (ltb : K → K → bool).
Context (good : K → Prop).
Hypothesis lt_good : ∀ a b, good a → good b → lt a b = Ok (ltb a b).
Hypothesis ltb_asym : ∀ a b, good a → good b → ltb a b = true → ltb b a = false.
Hypothesis ltb_trans : ∀ a b c, good a → good b → good c →
  ltb a b = true → ltb b c = true → ltb a c = true.

Lemma insort_spec (x : K * A) (l : list (K * A)) :
  good x.1 → Forall (λ p, good p.1) l →
  ∃ r, insort lt x l = Ok r ∧ r ≡ₚ x :: l ∧
       (StronglySorted (asc ltb) l → StronglySorted (asc ltb) r).
Proof.
  intros Hx. induction l as [|y l IH]; intros Hl.
  - exists [x]. repeat split; [done|]. intros _. repeat constructor.
  - apply Forall_cons in Hl as [Hy Hl]. simpl.
    rewrite (lt_good _ _ Hx Hy), bind_Ok.
    destruct (ltb x.1 y.1) eqn:Hlt.
    + exists (x :: y :: l). repeat split; [done|]. intros Hs.
      constructor; [done|]. apply StronglySorted_cons in Hs as [Hyl Hs].
      constructor; [by apply ltb_asym|].
      rewrite Forall_forall in Hyl, Hl |- *. intros z Hz.
      unfold asc. destruct (ltb z.1 x.1) eqn:Hzx; [|done].
      specialize (Hyl z Hz). unfold asc in Hyl.
      rewrite (ltb_trans z.1 x.1 y.1) in Hyl; auto.
    + destruct (IH Hl) as (r & -> & Hperm & Hsort). rewrite bind_Ok.
      exists (y :: r). repeat split.
      * rewrite Hperm. apply perm_swap.
      * intros Hs. apply StronglySorted_cons in Hs as [Hyl Hs].
        constructor; [auto|]. rewrite Hperm. by constructor.
Qed.

Lemma foldM_insort_spec (l acc : list (K * A)) :
  Forall (λ p, good p.1) l → Forall (λ p, good p.1) acc →
  StronglySorted (asc ltb) acc →
  ∃ r, foldM (λ acc x, insort lt x acc) acc l = Ok r ∧ r ≡ₚ acc ++ l ∧
       StronglySorted (asc ltb) r.
Proof.
  revert acc. induction l as [|x l IH]; intros acc Hl Hacc Hs.
  - exists acc. by rewrite app_nil_r.
  - apply Forall_cons in Hl as [Hx Hl]. simpl.
    destruct (insort_spec x acc Hx Hacc) as (r & -> & Hperm & Hsort).
    rewrite bind_Ok. destruct (IH r) as (r' & -> & Hperm' & Hsort'); auto.
    { rewrite Hperm. by constructor. }
    exists r'. repeat split; [|done]. rewrite Hperm', Hperm.
    simpl. apply Permutation_middle.
Qed.

Lemma mapM_keyed (key : A → result K) (l : list A) :
  (∀ x, x ∈ l → ∃ k, key x = Ok k ∧ good k) →
  ∃ keyed, mapM (λ x, k ← key x; Ok (k, x)) l = Ok keyed ∧ keyed.*2 = l ∧
           Forall (λ p, key p.2 = Ok p.1 ∧ good p.1) keyed.
Proof.
  induction l as [|x l IH]; intros Hl.
  - exists []. by repeat split.
  - destruct (Hl x) as (k & Hk & Hg); [by left|].
    destruct IH as (keyed & Hm & Hsnd & Hall).
    { intros y Hy. apply Hl. by right. }
    exists ((k, x) :: keyed). simpl. rewrite Hk, !bind_Ok, Hm, bind_Ok.
    repeat split; [by rewrite <- Hsnd|]. by constructor.
Qed.

Lemma StronglySorted_rev {B} (R : relation B) (l : list B) :
  StronglySorted R l → StronglySorted (flip R) (reverse l).
Proof.
  induction 1 as [|x l Hs IH Hx]; [constructor|]. rewrite reverse_cons.
  apply StronglySorted_app. repeat split; [|done|repeat constructor].
  intros x1 x2 Hx1 ->%list_elem_of_singleton.
  rewrite Forall_forall in Hx. apply Hx.
  by rewrite elem_of_reverse in Hx1.
Qed.

Lemma StronglySorted_weaken_fmap {B C} (f : B → C) (P : B → Prop)
    (R1 : relation B) (R2 : relation C) (l : list B) :
  Forall P l → (∀ x y, P x → P y → R1 x y → R2 (f x) (f y)) →
  StronglySorted R1 l → StronglySorted R2 (f <$> l).
Proof.
  intros HP HR Hs. induction Hs as [|x l Hs IH Hx]; csimpl; [constructor|].
  apply Forall_cons in HP as [Hpx HP]. constructor; [auto|].
  rewrite Forall_fmap. rewrite Forall_forall in Hx, HP |- *.
  intros y Hy. simpl. auto.
Qed.

Theorem sort_spec (key : A → result K) (reversed : bool) (l : list A) :
  (∀ x, x ∈ l → ∃ k, key x = Ok k ∧ good k) →
  ∃ out, sort lt key reversed l = Ok out ∧ out ≡ₚ l ∧
         StronglySorted (sorted_by ltb key reversed) out.
Proof.
  intros Hl. unfold sort.
  destruct (mapM_keyed key l Hl) as (keyed & -> & Hsnd & Hall).
  rewrite bind_Ok.
  assert (Hgood : Forall (λ p : K * A, good p.1) keyed).
  { eapply Forall_impl; [exact Hall|]. by intros ? [_ ?]. }
  set (input := if reversed then reverse keyed else keyed).
  assert (Hin : input ≡ₚ keyed).
  { unfold input. destruct reversed; [|done]. by rewrite reverse_Permutation. }
  destruct (foldM_insort_spec input []) as (r & -> & Hperm & Hsort);
    [by rewrite Hin | constructor | constructor |].
  rewrite bind_Ok. simpl in Hperm. rewrite Hin in Hperm.
  eexists; split; [reflexivity|]. split.
  - rewrite <- Hsnd, <- Hperm. destruct reversed; [|done].
    by rewrite reverse_Permutation.
  - assert (Hr : Forall (λ p : K * A, key p.2 = Ok p.1 ∧ good p.1) r)
      by by rewrite Hperm.
    destruct reversed.
    + apply (StronglySorted_weaken_fmap snd _ (flip (asc ltb)) _ (reverse r)
               ltac:(by rewrite reverse_Permutation)).
      * intros p q [Hp _] [Hq _] Hpq kx ky Hkx Hky.
        unfold flip, asc in Hpq. congruence.
      * by apply StronglySorted_rev.
    + apply (StronglySorted_weaken_fmap snd _ (asc ltb) _ r Hr); [|done].
      intros p q [Hp _] [Hq _] Hpq kx ky Hkx Hky.
      unfold asc in Hpq. congruence.
Qed.

End sort_facts.

(** Whatever the comparison, a sort that returns has permuted its input. *)
Section sort_permutes.
Context {A K : Type} (lt : K → K → result bool).

Lemma insort_Permutation (x : K * A) (l r : list (K * A)) :
  insort lt x l = Ok r → r ≡ₚ x :: l.
Proof.
  revert r. induction l as [|y l IH]; intros r; simpl.
  - by intros [= <-].
  - destruct (lt x.1 y.1) as [[]|]; simpl; [by intros [= <-]| |done].
    destruct (insort lt x l) as [r'|]; simpl; [|done].
    intros [= <-]. rewrite (IH r' eq_refl). apply perm_swap.
Qed.

Lemma foldM_insort_Permutation (l acc r : list (K * A)) :
  foldM (λ acc x, insort lt x acc) acc l = Ok r → r ≡ₚ acc ++ l.
Proof.
  revert acc. induction l as [|x l IH]; intros acc; simpl.
  - intros [= <-]. by rewrite app_nil_r.
  - destruct (insort lt x acc) as [acc'|] eqn:Hins; simpl; [|done].
    intros ->%IH. rewrite (insort_Permutation _ _ _ Hins).
    simpl. apply Permutation_middle.
Qed.

Lemma mapM_keyed_snd (key : A → result K) (l : list A) (keyed : list (K * A)) :
  mapM (λ x, k ← key x; Ok (k, x)) l = Ok keyed → keyed.*2 = l.
Proof.
  revert keyed. induction l as [|x l IH]; intros keyed; simpl.
  - by intros [= <-].
  - destruct (key x) as [k|]; simpl; [|done].
    destruct (mapM _ l) as [keyed'|]; simpl; [|done].
    intros [= <-]. csimpl. by rewrite (IH keyed' eq_refl).
Qed.

Lemma sort_Permutation (key : A → result K) (reversed : bool) (l out : list A) :
  sort lt key reversed l = Ok out → out ≡ₚ l.
Proof.
  unfold sort. intros (keyed & Hk & Hs)%bind_Ok_inv.
  apply bind_Ok_inv in Hs as (sorted & Hs & [= <-]).
  apply mapM_keyed_snd in Hk as <-.
  apply foldM_insort_Permutation in Hs. simpl in Hs.
  destruct reversed; rewrite ?reverse_Permutation, Hs, ?reverse_Permutation;
    done.
Qed.

End sort_permutes.

(** ** Dictionaries *)

Section dict_facts.
Context {K V : Type} `{Countable K}.
Implicit Types (d : list (K * V)) (k : K) (v : V).

Lemma getitem_opt_setitem d k k' v :
  getitem_opt k (setitem k' v d)
  = if decide (k = k') then Some v else getitem_opt k d.
Proof.
  induction d as [|[k0 v0] d IH]; simpl.
  - by destruct (decide (k = k')).
  - destruct (decide (k' = k0)) as [->|Hne]; simpl.
    + destruct (decide (k = k0)); done.
    + rewrite IH. destruct (decide (k = k0)) as [->|]; [|done].
      by rewrite decide_False by done.
Qed.

Lemma setitem_keys d k v :
  (setitem k v d).*1 = if decide (k ∈ d.*1) then d.*1 else d.*1 ++ [k].
Proof.
  induction d as [|[k0 v0] d IH].
  - destruct (decide (k ∈ ([] : list (K * V)).*1)) as [Hin|_]; [|done].
    by apply elem_of_nil in Hin.
  - cbn [setitem]. destruct (decide (k = k0)) as [->|Hne].
    + destruct (decide (k0 ∈ ((k0, v0) :: d).*1)) as [_|Hout]; [done|].
      destruct Hout. by left.
    + rewrite !fmap_cons, IH. cbn [fst].
      destruct (decide (k ∈ d.*1)) as [Hin|Hout];
        destruct (decide (k ∈ k0 :: d.*1)) as [Hin'|Hout']; try done.
      * destruct Hout'. by right.
      * apply elem_of_cons in Hin' as [?|?]; done.
Qed.

Lemma setitem_NoDup d k v : NoDup d.*1 → NoDup (setitem k v d).*1.
Proof.
  intros Hd. rewrite setitem_keys. destruct (decide (k ∈ d.*1)); [done|].
  apply NoDup_app. repeat split; [done| |apply NoDup_singleton].
  intros x Hx ->%list_elem_of_singleton. done.
Qed.

Lemma setitem_to_map d k v :
  list_to_map (setitem k v d) =@{gmap K V} <[k := v]> (list_to_map d).
Proof.
  induction d as [|[k0 v0] d IH]; simpl; [done|].
  destruct (decide (k = k0)) as [->|Hne]; simpl.
  - by rewrite insert_insert_eq.
  - by rewrite IH, insert_insert_ne.
Qed.

Lemma getitem_opt_to_map d k :
  getitem_opt k d = (list_to_map d : gmap K V) !! k.
Proof.
  induction d as [|[k0 v0] d IH]; simpl; [by rewrite lookup_empty|].
  destruct (decide (k = k0)) as [->|Hne].
  - by rewrite lookup_insert_eq.
  - by rewrite lookup_insert_ne.
Qed.

Lemma values_to_map d :
  NoDup d.*1 → values d ≡ₚ (map_to_list (list_to_map d : gmap K V)).*2.
Proof. intros Hd. unfold values. by rewrite map_to_list_to_map. Qed.

End dict_facts.

(** ** The order on [str] *)

Lemma str_ltb_irrefl (a : pystr) : str_ltb a a = false.
Proof.
  induction a as [|x a IH]; simpl; [done|].
  by rewrite N.ltb_irrefl.
Qed.

Lemma str_ltb_trans (a b c : pystr) :
  str_ltb a b = true → str_ltb b c = true → str_ltb a c = true.
Proof.
  revert b c. induction a as [|x a IH]; intros [|y b] [|z c]; simpl; try done.
  destruct (N.ltb_spec x y), (N.ltb_spec y x), (N.ltb_spec y z),
    (N.ltb_spec z y), (N.ltb_spec x z), (N.ltb_spec z x);
    try done; try lia; eauto.
Qed.

Lemma str_ltb_asym (a b : pystr) : str_ltb a b = true → str_ltb b a = false.
Proof.
  intros Hab. destruct (str_ltb b a) eqn:Hba; [|done].
  by rewrite <- (str_ltb_irrefl a), (str_ltb_trans a b a).
Qed.

Lemma str_ltb_total (a b : pystr) :
  a ≠ b → str_ltb a b = true ∨ str_ltb b a = true.
Proof.
  revert b. induction a as [|x a IH]; intros [|y b] Hne; simpl; auto; try done.
  destruct (N.ltb_spec x y), (N.ltb_spec y x); auto; try lia.
  assert (x = y) as -> by lia. apply IH. congruence.
Qed.

Lemma str_ltb_nil (a : pystr) : a ≠ [] → str_ltb [] a = true.
Proof. by destruct a. Qed.

(** ** [merge_events] on well-formed records *)

Section merge_facts.
Implicit Types (d : list (pykey * json)) (e : json) (k : pykey).

Local Abbreviation keyed d :=
  (Forall (λ p : pykey * json, comment_id_key p.2 = Some p.1) d).
Local Abbreviation with_id k := (λ e : json, comment_id_key e = Some k).

Lemma events_add_ok d e :
  is_Some (comment_id_key e) → events_add d e = Ok (dict_add d e).
Proof.
  unfold events_add, dict_add, comment_id_key.
  destruct (getitem e (str "comment_id")); [done|]. by intros [? ?].
Qed.

Lemma foldM_events_add d (l : list json) :
  Forall (λ e, is_Some (comment_id_key e)) l →
  foldM events_add d l = Ok (foldl dict_add d l).
Proof.
  revert d. induction l as [|e l IH]; intros d Hl; simpl; [done|].
  apply Forall_cons in Hl as [He Hl].
  rewrite events_add_ok, bind_Ok by done. by apply IH.
Qed.

Lemma setitem_Forall {V} (P : pykey * V → Prop) (d : list (pykey * V)) k v :
  Forall P d → P (k, v) → Forall P (setitem k v d).
Proof.
  intros Hd Hkv. induction Hd as [|[k0 v0] d Hp Hd IH]; simpl.
  - by constructor.
  - destruct (decide (k = k0)) as [->|]; by constructor.
Qed.

Lemma dict_add_invariant d e :
  NoDup d.*1 → keyed d → NoDup (dict_add d e).*1 ∧ keyed (dict_add d e).
Proof.
  intros Hnd Hk. unfold dict_add.
  destruct (comment_id_key e) as [k|] eqn:He; [|done].
  split; [by apply setitem_NoDup | by apply setitem_Forall].
Qed.

Lemma foldl_dict_add_invariant d (l : list json) :
  NoDup d.*1 → keyed d →
  NoDup (foldl dict_add d l).*1 ∧ keyed (foldl dict_add d l).
Proof.
  revert d. induction l as [|e l IH]; intros d Hnd Hk; simpl; [done|].
  destruct (dict_add_invariant d e Hnd Hk). by apply IH.
Qed.

Lemma foldl_dict_add_to_map d (l : list json) :
  list_to_map (foldl dict_add d l) = foldl insert_record (list_to_map d) l.
Proof.
  revert d. induction l as [|e l IH]; intros d; simpl; [done|].
  rewrite IH. f_equal. unfold dict_add, insert_record.
  destruct (comment_id_key e); [apply setitem_to_map | done].
Qed.

Lemma getitem_opt_foldl_dict_add k d (l : list json) :
  getitem_opt k (foldl dict_add d l)
  = match last (filter (with_id k) l) with
    | Some e => Some e
    | None => getitem_opt k d
    end.
Proof.
  induction l as [|e l IH] using rev_ind; [done|].
  rewrite foldl_app, filter_app. simpl. unfold dict_add at 1.
  rewrite filter_cons, filter_nil.
  destruct (decide (comment_id_key e = Some k)) as [He|He].
  - rewrite He, getitem_opt_setitem, decide_True by done.
    by rewrite last_snoc.
  - rewrite app_nil_r. destruct (comment_id_key e) as [k'|]; [|done].
    rewrite getitem_opt_setitem, decide_False; [done|]. congruence.
Qed.

Lemma elem_of_foldl_dict_add d (l : list json) e :
  e ∈ (foldl dict_add d l).*2 → e ∈ d.*2 ∨ e ∈ l.
Proof.
  revert d. induction l as [|x l IH]; intros d; simpl; [auto|].
  intros [Hin|Hin]%IH; [|right; by right].
  unfold dict_add in Hin. destruct (comment_id_key x) as [k|]; [|auto].
  clear IH. induction d as [|[k0 v0] d IHd]; simpl in Hin.
  - apply list_elem_of_singleton in Hin as ->. right. by left.
  - destruct (decide (k = k0)); csimpl in *.
    + apply elem_of_cons in Hin as [->|Hin]; [right; by left|].
      left. by right.
    + apply elem_of_cons in Hin as [->|Hin]; [left; by left|].
      destruct (IHd Hin) as [?|?]; [left; by right | by right].
Qed.

Lemma filter_values_absent d k :
  keyed d → k ∉ d.*1 → filter (with_id k) d.*2 = [].
Proof.
  induction 1 as [|[k0 v0] d Hp Hd IH]; csimpl; [done|].
  intros [Hne Hout]%not_elem_of_cons. simpl in Hp.
  rewrite filter_cons_False; [by apply IH|]. congruence.
Qed.

Lemma filter_values_unique d k e :
  NoDup d.*1 → keyed d → getitem_opt k d = Some e →
  filter (with_id k) d.*2 = [e].
Proof.
  intros Hnd Hk. induction Hk as [|[k0 v0] d Hp Hd IH]; csimpl; [done|].
  apply NoDup_cons in Hnd as [Hout Hnd]. simpl in Hp.
  destruct (decide (k = k0)) as [->|Hne]; intros He.
  - injection He as ->. rewrite filter_cons_True by done.
    by rewrite filter_values_absent.
  - rewrite filter_cons_False; [by apply IH|]. congruence.
Qed.

(** The sort keys of well-formed records are [str], on which [<] is a
    strict order. *)
Lemma py_lt_str (a b : scalar) :
  is_str a → is_str b → py_lt a b = Ok (key_ltb a b).
Proof. by intros [? ->] [? ->]. Qed.

Lemma key_ltb_asym (a b : scalar) :
  is_str a → is_str b → key_ltb a b = true → key_ltb b a = false.
Proof. intros [? ->] [? ->]. apply str_ltb_asym. Qed.

Lemma key_ltb_trans (a b c : scalar) :
  is_str a → is_str b → is_str c →
  key_ltb a b = true → key_ltb b c = true → key_ltb a c = true.
Proof. intros [? ->] [? ->] [? ->]. apply str_ltb_trans. Qed.

Lemma extracted_at_key_get e s :
  extracted_at_key e = Some s →
  get e (str "extracted_at") (SStr []) = Ok (SStr s).
Proof.
  unfold extracted_at_key.
  destruct (get e _ _) as [[]|]; naive_solver.
Qed.

(** What [merge_events] returns on well-formed records: a permutation of the
    values of the dictionary, in descending order of the sort key. *)
Lemma merge_events_ok (existing incoming : list json) :
  Forall well_formed existing → Forall well_formed incoming →
  let d := foldl dict_add (foldl dict_add [] existing) incoming in
  ∃ out, merge_events existing incoming = Ok out ∧ out ≡ₚ values d ∧
    StronglySorted
      (sorted_by key_ltb (λ x, get x (str "extracted_at") (SStr [])) true) out.
Proof.
  intros Hex Hinc d. unfold merge_events.
  rewrite foldM_events_add, bind_Ok, foldM_events_add, bind_Ok; cycle 1.
  { eapply Forall_impl; [exact Hinc|]. by intros ? [? _]. }
  { eapply Forall_impl; [exact Hex|]. by intros ? [? _]. }
  apply (sort_spec py_lt key_ltb is_str py_lt_str key_ltb_asym key_ltb_trans).
  intros x Hx. assert (well_formed x) as [_ [s Hs]].
  { rewrite Forall_forall in Hex, Hinc.
    apply elem_of_foldl_dict_add in Hx as [Hx|Hx]; [|by apply Hinc].
    apply elem_of_foldl_dict_add in Hx as [Hx|Hx]; [|by apply Hex].
    by apply elem_of_nil in Hx. }
  exists (SStr s). split; [by apply extracted_at_key_get | by exists s].
Qed.

Lemma foldM_events_add_inv (d d' : list (pykey * json)) (l : list json) :
  foldM events_add d l = Ok d' →
  d' = foldl dict_add d l ∧ Forall (λ e, is_Some (comment_id_key e)) l.
Proof.
  revert d. induction l as [|e l IH]; intros d; simpl.
  - by intros [= <-].
  - intros (d1 & Hadd & Hrest)%bind_Ok_inv.
    assert (is_Some (comment_id_key e)) as He.
    { unfold events_add, comment_id_key in *.
      destruct (getitem e (str "comment_id")); [by eexists | done]. }
    rewrite events_add_ok in Hadd by done. injection Hadd as <-.
    destruct (IH _ Hrest) as [-> Hl]. by split; [|constructor].
Qed.

Lemma merge_events_Ok_inv (existing incoming merged : list json) :
  merge_events existing incoming = Ok merged →
  merged ≡ₚ values (foldl dict_add (foldl dict_add [] existing) incoming)
  ∧ Forall (λ e, is_Some (comment_id_key e)) existing
  ∧ Forall (λ e, is_Some (comment_id_key e)) incoming.
Proof.
  unfold merge_events. intros (d1 & H1 & Hm)%bind_Ok_inv.
  apply bind_Ok_inv in Hm as (d2 & H2 & Hs).
  apply foldM_events_add_inv in H1 as [-> Hex].
  apply foldM_events_add_inv in H2 as [-> Hinc].
  by apply sort_Permutation in Hs.
Qed.

Lemma foldl_dict_add_keys_fresh (d : list (pykey * json)) (l : list json) :
  NoDup (d.*1 ++ omap comment_id_key l) →
  (foldl dict_add d l).*1 = d.*1 ++ omap comment_id_key l.
Proof.
  revert d. induction l as [|e l IH]; intros d; csimpl.
  - by rewrite app_nil_r.
  - unfold dict_add at 2. destruct (comment_id_key e) as [k|]; csimpl; [|apply IH].
    intros Hnd. assert (k ∉ d.*1) as Hk.
    { apply NoDup_app in Hnd as (_ & Hdis & _). intros Hin.
      apply (Hdis k Hin). by left. }
    rewrite IH; rewrite setitem_keys, decide_False by done.
    + by rewrite <- app_assoc.
    + by rewrite <- app_assoc.
Qed.

Lemma foldl_dict_add_keys_present (d : list (pykey * json)) (l : list json) :
  (∀ e k, e ∈ l → comment_id_key e = Some k → k ∈ d.*1) →
  (foldl dict_add d l).*1 = d.*1.
Proof.
  revert d. induction l as [|e l IH]; intros d Hl; simpl; [done|].
  assert ((dict_add d e).*1 = d.*1) as Hd.
  { unfold dict_add. destruct (comment_id_key e) as [k|] eqn:He; [|done].
    rewrite setitem_keys, decide_True; [done|].
    apply (Hl e k); [by left | done]. }
  rewrite IH; [done|]. intros e' k He' Hk. rewrite Hd.
  apply (Hl e' k); [by right | done].
Qed.

Lemma length_omap_Some {A B} (f : A → option B) (l : list A) :
  Forall (λ x, is_Some (f x)) l → length (omap f l) = length l.
Proof.
  induction 1 as [|x l [y Hy] _ IH]; csimpl; [done|]. rewrite Hy. simpl. lia.
Qed.

(** When no two records of the store share an id and every incoming id is
    already in the store, the merge returns as many records as the store
    holds. *)
Lemma merge_events_same_length (existing incoming merged : list json) :
  merge_events existing incoming = Ok merged →
  NoDup (omap comment_id_key existing) →
  (∀ e, e ∈ incoming →
        ∃ x, x ∈ existing ∧ comment_id_key x = comment_id_key e) →
  len merged = len existing.
Proof.
  intros (Hperm & Hex & Hinc)%merge_events_Ok_inv Hnd Hknown.
  unfold len. f_equal. rewrite Hperm. unfold values.
  rewrite length_fmap, <- (length_fmap fst).
  assert ((foldl dict_add [] existing).*1 = omap comment_id_key existing)
    as Hkeys by by rewrite foldl_dict_add_keys_fresh.
  rewrite foldl_dict_add_keys_present, Hkeys; [by apply length_omap_Some|].
  intros e k' He Hk. rewrite Hkeys.
  destruct (Hknown e He) as (x & Hx & Hid).
  apply list_elem_of_omap. exists x. split; [done|]. congruence.
Qed.


End merge_facts.

Lemma StronglySorted_lookup_lt {A} (R : relation A) (l : list A) i j x y :
  StronglySorted R l → l !! i = Some x → l !! j = Some y → (i < j)%nat →
  R x y.
Proof.
  intros Hs. revert i j. induction Hs as [|z l Hs IH Hz]; intros i j Hi Hj Hlt.
  - by rewrite lookup_nil in Hi.
  - destruct j as [|j]; [lia|]. simpl in Hj. destruct i as [|i]; simpl in Hi.
    + injection Hi as ->. rewrite Forall_forall in Hz. apply Hz.
      by eapply list_elem_of_lookup_2.
    + apply (IH i j); [done|done|lia].
Qed.

Lemma well_formed_sample id text extracted :
  well_formed (sample_record id text extracted).
Proof. split; eexists; reflexivity. Qed.

(** Closed lists of records are well formed by evaluation. *)
Ltac solve_well_formed :=
  repeat first [apply Forall_nil | apply Forall_cons; split];
  try (split; eexists; reflexivity).

(** C1. [merge_events] returns on every pair of lists of well-formed
    records, and whenever it returns, its output is, up to order, the values
    of the mapping seeded with the existing records and overwritten by each
    incoming record in order: for every id present in either input the
    output holds exactly one record with that id, and it is the last
    incoming record with that id when there is one. *)
Theorem merge_events_last_write_wins (existing incoming : list json) :
  (Forall well_formed existing → Forall well_formed incoming →
   ∃ out, merge_events existing incoming = Ok out)
  ∧ ∀ out, merge_events existing incoming = Ok out →
      out ≡ₚ (map_to_list (merged_mapping existing incoming)).*2 ∧
      ∀ k, (∃ e, e ∈ existing ++ incoming ∧ comment_id_key e = Some k) →
        ∃ r, filter (λ e, comment_id_key e = Some k) out = [r] ∧
             ∀ e, last (filter (λ e, comment_id_key e = Some k) incoming)
                  = Some e → r = e.
Proof.
  split.
  { intros Hex Hinc.
    destruct (merge_events_ok existing incoming Hex Hinc) as (out & Hout & _).
    by exists out. }
  intros out (Hperm & _ & _)%merge_events_Ok_inv.
  set (d := foldl dict_add (foldl dict_add [] existing) incoming) in Hperm.
  destruct (foldl_dict_add_invariant [] existing) as [Hnd0 Hk0];
    [constructor | constructor |].
  destruct (foldl_dict_add_invariant _ incoming Hnd0 Hk0) as [Hnd Hk].
  fold d in Hnd, Hk. split.
  - rewrite Hperm, values_to_map by done. unfold d, merged_mapping.
    by rewrite !foldl_dict_add_to_map.
  - intros k (e & He & Hid).
    assert (∃ r, getitem_opt k d = Some r ∧
              ∀ e', last (filter (λ e, comment_id_key e = Some k) incoming)
                    = Some e' → r = e') as (r & Hr & Hlast).
    { unfold d. rewrite getitem_opt_foldl_dict_add.
      destruct (last (filter _ incoming)) as [e'|] eqn:Hl.
      - exists e'. split; [done|]. congruence.
      - rewrite getitem_opt_foldl_dict_add.
        apply last_None in Hl.
        apply elem_of_app in He as [He|He].
        + destruct (last (filter _ existing)) as [e'|] eqn:Hl'; [by eexists|].
          apply last_None in Hl'.
          assert (e ∈ filter (λ e, comment_id_key e = Some k) existing)
            as Hin by by apply list_elem_of_filter.
          rewrite Hl' in Hin. by apply elem_of_nil in Hin.
        + assert (e ∈ filter (λ e, comment_id_key e = Some k) incoming)
            as Hin by by apply list_elem_of_filter.
          rewrite Hl in Hin. by apply elem_of_nil in Hin. }
    exists r. split; [|done].
    apply Permutation_singleton_r.
    rewrite Hperm. unfold values. by rewrite (filter_values_unique d k r).
Qed.

Lemma merge_events_last_write_wins_witness :
  ∃ out,
    merge_events [sample_record "a" "old" "2024-01-01T00:00:00Z"]
                 [sample_record "a" "new" "2024-02-01T00:00:00Z"] = Ok out.
Proof.
  apply (merge_events_last_write_wins
           [sample_record "a" "old" "2024-01-01T00:00:00Z"]
           [sample_record "a" "new" "2024-02-01T00:00:00Z"]).
  - solve_well_formed.
  - solve_well_formed.
Defined.

Example merge_events_overwrites :
  merge_events [sample_record "a" "old" "2024-01-01T00:00:00Z";
                sample_record "b" "kept" "2024-03-01T00:00:00Z"]
               [sample_record "a" "new" "2024-02-01T00:00:00Z"]
  = Ok [sample_record "b" "kept" "2024-03-01T00:00:00Z";
        sample_record "a" "new" "2024-02-01T00:00:00Z"].
Proof. reflexivity. Qed.

(** C2, as amended. In the output of [merge_events], two records with
    distinct [extracted_at] strings stand in descending order of these
    strings, a missing field counting as the empty string; so a record
    without the field stands after every record whose [extracted_at] is a
    non-empty string. *)
Theorem merge_events_descending (existing incoming : list json) :
  Forall well_formed existing → Forall well_formed incoming →
  ∃ out, merge_events existing incoming = Ok out ∧
    (∀ i j A B a b,
       out !! i = Some A → out !! j = Some B →
       extracted_at_key A = Some a → extracted_at_key B = Some b → a ≠ b →
       ((i < j)%nat ↔ str_ltb b a = true)) ∧
    (∀ i j A B b,
       out !! i = Some A → out !! j = Some B →
       has_extracted_at A = false →
       extracted_at_key B = Some b → b ≠ [] → (j < i)%nat).
Proof.
  intros Hex Hinc.
  destruct (merge_events_ok existing incoming Hex Hinc) as (out & Hout & Hperm & Hs).
  exists out. split; [done|].
  assert (Horder : ∀ i j A B a b,
       out !! i = Some A → out !! j = Some B →
       extracted_at_key A = Some a → extracted_at_key B = Some b → a ≠ b →
       ((i < j)%nat ↔ str_ltb b a = true)).
  { intros i j A B a b Hi Hj Ha Hb Hne.
    apply extracted_at_key_get in Ha, Hb. split.
    - intros Hlt.
      pose proof (StronglySorted_lookup_lt _ _ _ _ _ _ Hs Hi Hj Hlt _ _ Ha Hb)
        as Hab. simpl in Hab.
      destruct (str_ltb_total a b Hne); congruence.
    - intros Hba. destruct (decide (i < j)%nat) as [|Hge]; [done|].
      destruct (decide (i = j)) as [->|Hij]; [congruence|].
      assert (j < i)%nat as Hlt by lia.
      pose proof (StronglySorted_lookup_lt _ _ _ _ _ _ Hs Hj Hi Hlt _ _ Hb Ha)
        as Hab. simpl in Hab. congruence. }
  split; [exact Horder|].
  intros i j A B b Hi Hj Hmiss Hb Hne.
  assert (well_formed A) as [[k Hk] _].
  { assert (A ∈ out) as HA by by eapply list_elem_of_lookup_2.
    rewrite Hperm in HA. rewrite Forall_forall in Hex, Hinc.
    apply elem_of_foldl_dict_add in HA as [HA|HA]; [|by apply Hinc].
    apply elem_of_foldl_dict_add in HA as [HA|HA]; [|by apply Hex].
    by apply elem_of_nil in HA. }
  assert (extracted_at_key A = Some []) as Ha.
  { destruct A as [?|?|d]; try done. unfold extracted_at_key. simpl in *.
    destruct (getitem_opt (str "extracted_at") d) eqn:Hd; [|done].
    by rewrite bool_decide_eq_false in Hmiss; destruct Hmiss. }
  apply (Horder j i B A b []); try done. by apply str_ltb_nil.
Qed.

Lemma merge_events_descending_witness :
  ∃ out,
    merge_events [sample_record "a" "old" "2024-01-01T00:00:00Z"]
                 [sample_record "b" "new" "2024-02-01T00:00:00Z"] = Ok out ∧
    (∀ i j A B a b,
       out !! i = Some A → out !! j = Some B →
       extracted_at_key A = Some a → extracted_at_key B = Some b → a ≠ b →
       ((i < j)%nat ↔ str_ltb b a = true)) ∧
    (∀ i j A B b,
       out !! i = Some A → out !! j = Some B →
       has_extracted_at A = false →
       extracted_at_key B = Some b → b ≠ [] → (j < i)%nat).
Proof.
  apply (merge_events_descending
           [sample_record "a" "old" "2024-01-01T00:00:00Z"]
           [sample_record "b" "new" "2024-02-01T00:00:00Z"]).
  - solve_well_formed.
  - solve_well_formed.
Defined.

(** C2 as stated fails: a record without [extracted_at] stands before a
    record that has the field with an empty value, since both sort as the
    empty string and the sort keeps their order. *)
Lemma merge_events_missing_not_last :
  ∃ out A B,
    merge_events [record_without_extracted_at; record_with_empty_extracted_at]
                 [sample_record "c" "new" "2024-02-01T00:00:00Z"] = Ok out ∧
    out !! 1%nat = Some A ∧ out !! 2%nat = Some B ∧
    has_extracted_at A = false ∧ has_extracted_at B = true.
Proof.
  exists [sample_record "c" "new" "2024-02-01T00:00:00Z";
          record_without_extracted_at; record_with_empty_extracted_at],
    record_without_extracted_at, record_with_empty_extracted_at.
  repeat split; reflexivity.
Qed.

(** ** [re.search] decides the language of the pattern *)

Section regex_facts.
Implicit Types (r : regex) (s m : pystr) (c : N).

Lemma nullable_spec r : nullable r = true ↔ matches r [].
Proof.
  split.
  - induction r; simpl; intros Hn; try done.
    + constructor.
    + apply andb_true_iff in Hn as [? ?].
      apply (m_cat _ _ [] []); auto.
    + apply orb_true_iff in Hn as [?|?];
        [apply m_alt_l | apply m_alt_r]; auto.
    + constructor.
  - intros Hm. remember [] as s eqn:Hs.
    induction Hm; simpl; try done.
    + apply app_eq_nil in Hs as [-> ->]. by rewrite IHHm1, IHHm2.
    + by rewrite IHHm.
    + rewrite IHHm by done. apply orb_true_r.
Qed.

Lemma matches_star_cons_inv r c s :
  matches (Star r) (c :: s) →
  ∃ s1 s2, s = s1 ++ s2 ∧ matches r (c :: s1) ∧ matches (Star r) s2.
Proof.
  intros Hm. remember (Star r) as r' eqn:Hr. remember (c :: s) as s' eqn:Hs.
  revert s Hs.
  induction Hm as [| | | | | | |r0 t1 t2 H1 _ H2 IH2]; intros t Ht; try done.
  injection Hr as ->. destruct t1 as [|c1 t1].
  - simpl in Ht. by apply IH2.
  - simpl in Ht. injection Ht as Hc Ht. subst. by exists t1, t2.
Qed.

Lemma matches_cat r1 r2 m :
  matches (Cat r1 r2) m ↔ ∃ m1 m2, m = m1 ++ m2 ∧ matches r1 m1 ∧ matches r2 m2.
Proof.
  split; [inv 1; eauto | intros (m1 & m2 & -> & ? & ?); by constructor].
Qed.

Lemma matches_alt r1 r2 m : matches (Alt r1 r2) m ↔ matches r1 m ∨ matches r2 m.
Proof.
  split; [inv 1; auto | intros [?|?]; [apply m_alt_l | apply m_alt_r]; done].
Qed.

Lemma matches_cls (p : N → bool) m :
  matches (Cls p) m ↔ ∃ c, m = [c] ∧ p c = true.
Proof. split; [inv 1; eauto | intros (c & -> & ?); by constructor]. Qed.

Lemma deriv_spec c r s : matches (deriv c r) s ↔ matches r (c :: s).
Proof.
  revert s. induction r as [| |c'|p|r1 IH1 r2 IH2|r1 IH1 r2 IH2|r IH];
    intros s; simpl.
  - split; inv 1.
  - split; inv 1.
  - destruct (N.eqb_spec c c') as [->|Hne]; split; inv 1;
      try done; constructor.
  - destruct (p c) eqn:Hp; split; inv 1; try done; try congruence;
      by constructor.
  - assert (matches (Cat (deriv c r1) r2) s ↔
              ∃ s1 s2, s = s1 ++ s2 ∧ matches r1 (c :: s1) ∧ matches r2 s2)
      as Hcat.
    { split.
      - inv 1. eexists _, _. split; [done|]. by rewrite <- IH1.
      - intros (s1 & s2 & -> & H1 & H2). constructor; [|done]. by apply IH1. }
    split.
    + intros Hm.
      assert (matches (Cat (deriv c r1) r2) s ∨
                (nullable r1 = true ∧ matches (deriv c r2) s)) as [Hl|[Hn Hr]].
      { destruct (nullable r1); [inv Hm|]; auto. }
      * apply Hcat in Hl as (s1 & s2 & -> & H1 & H2).
        by apply (m_cat _ _ (c :: s1) s2).
      * apply (m_cat _ _ [] (c :: s)); [by apply nullable_spec | by apply IH2].
    + intros (s1 & s2 & Hs & H1 & H2)%matches_cat.
      destruct s1 as [|c1 s1]; simpl in Hs.
      * subst s2. apply nullable_spec in H1. rewrite H1.
        apply m_alt_r. by apply IH2.
      * injection Hs as Hc Hs. subst c1 s.
        assert (matches (Cat (deriv c r1) r2) (s1 ++ s2)) as Hl
          by (apply Hcat; eauto).
        destruct (nullable r1); [by apply m_alt_l | done].
  - split.
    + inv 1; [apply m_alt_l; by apply IH1 | apply m_alt_r; by apply IH2].
    + inv 1; [apply m_alt_l; by apply IH1 | apply m_alt_r; by apply IH2].
  - split.
    + inv 1. apply (m_star_cons _ (c :: _)); [by apply IH | done].
    + intros (s1 & s2 & -> & H1 & H2)%matches_star_cons_inv.
      constructor; [by apply IH | done].
Qed.

Lemma match_prefix_spec r s :
  match_prefix r s = true ↔ ∃ m post, s = m ++ post ∧ matches r m.
Proof.
  revert r. induction s as [|c s IH]; intros r; simpl.
  - rewrite orb_false_r, nullable_spec. split.
    + intros Hm. by exists [], [].
    + intros (m & post & Hs & Hm). symmetry in Hs.
      by apply app_eq_nil in Hs as [-> ->].
  - rewrite orb_true_iff, nullable_spec, IH. split.
    + intros [Hm|(m & post & -> & Hm)].
      * by exists [], (c :: s).
      * exists (c :: m), post. split; [done|]. by apply deriv_spec.
    + intros ([|c' m] & post & Hs & Hm); [by left|].
      injection Hs as <- ->. right. exists m, post. split; [done|].
      by apply deriv_spec.
Qed.

(** [search r s] holds exactly when some slice of [s] is in the language
    of [r]. *)
Theorem search_spec r s :
  search r s = true ↔ ∃ pre m post, s = pre ++ m ++ post ∧ matches r m.
Proof.
  induction s as [|c s IH]; cbn [search].
  - rewrite orb_false_r, match_prefix_spec. split.
    + intros (m & post & Hs & Hm). by exists [], m, post.
    + intros (pre & m & post & Hs & Hm). symmetry in Hs.
      apply app_eq_nil in Hs as [-> Hs]. by exists m, post.
  - rewrite orb_true_iff, match_prefix_spec, IH. split.
    + intros [(m & post & Hs & Hm)|(pre & m & post & -> & Hm)].
      * by exists [], m, post.
      * by exists (c :: pre), m, post.
    + intros ([|c' pre] & m & post & Hs & Hm).
      * left. by exists m, post.
      * injection Hs as Hc Hs. subst. right. by exists pre, m, post.
Qed.

Lemma matches_lit w m : matches (lit w) m ↔ m = w.
Proof.
  revert m. induction w as [|c w IH]; intros m; simpl.
  - split; [by inv 1 | intros ->; constructor].
  - split.
    + inv 1 as [| | |? ? s1 s2 H1 H2| | | |]. inv H1.
      apply IH in H2 as ->. done.
    + intros ->. apply (m_cat _ _ [c] w); [constructor | by apply IH].
Qed.

Lemma search_lit w s : search (lit w) s = true ↔ contains_str w s.
Proof.
  rewrite search_spec. unfold contains_str. split.
  - intros (pre & m & post & -> & ->%matches_lit). eauto.
  - intros (pre & post & ->). exists pre, w, post. by rewrite matches_lit.
Qed.

Lemma matches_opt r m : matches (Opt r) m ↔ m = [] ∨ matches r m.
Proof.
  unfold Opt. rewrite matches_alt. split; (intros [Hm|Hm]; [left|by right]).
  - by inv Hm.
  - subst. constructor.
Qed.

(** A match of [r+] starts with a match of [r]. *)
Lemma matches_plus_cls (p : N → bool) m :
  matches (Plus (Cls p)) m → ∃ c rest, m = c :: rest ∧ p c = true.
Proof.
  unfold Plus. rewrite matches_cat.
  intros (m1 & m2 & -> & (c & -> & Hc)%matches_cls & _). eauto.
Qed.

Lemma matches_plus_one (p : N → bool) c : p c = true → matches (Plus (Cls p)) [c].
Proof.
  intros Hc. apply (m_cat _ _ [c] []); [by constructor | constructor].
Qed.

(** A match extends to the shortest one when only its existence matters: a
    slice matching [w r+] exists iff [w] occurs followed by a character of
    the class. *)
Lemma search_prefixed_cls w (p : N → bool) s :
  search (Cat (lit w) (Plus (Cls p))) s = true
  ↔ ∃ pre c post, s = pre ++ w ++ c :: post ∧ p c = true.
Proof.
  rewrite search_spec. split.
  - intros (pre & m & post & -> & Hm). apply matches_cat in Hm
      as (m1 & m2 & -> & ->%matches_lit & (c & rest & -> & Hc)%matches_plus_cls).
    exists pre, c, (rest ++ post). by rewrite <- !app_assoc.
  - intros (pre & c & post & -> & Hc). exists pre, (w ++ [c]), post.
    split; [by rewrite <- !app_assoc|].
    apply matches_cat. exists w, [c]. rewrite matches_lit.
    auto using matches_plus_one.
Qed.

End regex_facts.

(** ** The extractor *)

Section analyzer_facts.
Context `{Runtime}.
Implicit Types (text : pystr) (comment : pydict).

Lemma search_alt r1 r2 s :
  search (Alt r1 r2) s = true ↔ search r1 s = true ∨ search r2 s = true.
Proof.
  rewrite !search_spec. split.
  - intros (pre & m & post & -> & [Hm|Hm]%matches_alt); [left|right];
      by exists pre, m, post.
  - intros [(pre & m & post & -> & Hm)|(pre & m & post & -> & Hm)];
      exists pre, m, post; (split; [done|]); apply matches_alt; auto.
Qed.

Lemma search_scheme text :
  search (Cat (lit (str "http")) (Cat (Opt (lit (str "s")))
            (Cat (lit (str "://")) (Plus nonspace)))) text = true
  ↔ contains_prefixed (str "http://") text
    ∨ contains_prefixed (str "https://") text.
Proof.
  rewrite search_spec. unfold contains_prefixed, nonspace. split.
  - intros (pre & m & post & -> & Hm).
    apply matches_cat in Hm as (m1 & n1 & -> & ->%matches_lit & Hm).
    apply matches_cat in Hm as (m2 & n2 & -> & Hopt%matches_opt & Hm).
    apply matches_cat in Hm as (m3 & n3 & -> & ->%matches_lit & Hm).
    apply matches_plus_cls in Hm as (c & rest & -> & Hc%negb_true_iff).
    destruct Hopt as [->| ->%matches_lit]; [left|right];
      exists pre, c, (rest ++ post); (split; [|done]);
      by rewrite <- !app_assoc.
  - intros [(pre & c & post & -> & Hc)|(pre & c & post & -> & Hc)].
    + exists pre, (str "http" ++ [] ++ str "://" ++ [c]), post.
      split; [by rewrite <- !app_assoc|].
      apply matches_cat. eexists _, _. split; [done|].
      split; [by apply matches_lit|].
      apply matches_cat. eexists _, _. split; [done|].
      split; [apply matches_opt; by left|].
      apply matches_cat. eexists _, _. split; [done|].
      split; [by apply matches_lit|].
      apply matches_plus_one. by apply negb_true_iff.
    + exists pre, (str "http" ++ str "s" ++ str "://" ++ [c]), post.
      split; [by rewrite <- !app_assoc|].
      apply matches_cat. eexists _, _. split; [done|].
      split; [by apply matches_lit|].
      apply matches_cat. eexists _, _. split; [done|].
      split; [apply matches_opt; right; by apply matches_lit|].
      apply matches_cat. eexists _, _. split; [done|].
      split; [by apply matches_lit|].
      apply matches_plus_one. by apply negb_true_iff.
Qed.

(** The URL pattern finds a match exactly in the texts that are URL-like. *)
Theorem search_url_pattern text :
  search url_pattern text = true ↔ url_like text.
Proof.
  unfold url_pattern, url_like. cbn [alts].
  rewrite !search_alt, search_scheme, !search_lit.
  unfold nonspace. rewrite search_prefixed_cls. unfold contains_prefixed.
  setoid_rewrite negb_true_iff. tauto.
Qed.



Lemma is_spam_true text :
  is_spam text = true
  ↔ url_like text ∨ len (strip text) < 5 ∨ 500 < len (strip text).
Proof.
  rewrite <- search_url_pattern. unfold is_spam.
  destruct (search url_pattern text); [naive_solver|].
  destruct (Z.ltb_spec (len (strip text)) 5),
    (Z.ltb_spec 500 (len (strip text))); simpl; split;
    try done; auto; intros [?|[?|?]]; try done; lia.
Qed.

Lemma contains_future_date_false text :
  contains_future_date text = false
  ↔ ∀ pattern, pattern ∈ date_patterns → search pattern text = false.
Proof.
  unfold contains_future_date. split.
  - intros Hex pattern Hin. apply not_true_is_false. intros Hs.
    apply not_true_iff_false in Hex. apply Hex.
    apply existsb_exists. exists pattern. by rewrite <- list_elem_of_In.
  - intros Hall. apply not_true_is_false.
    intros (pattern & Hin & Hs)%existsb_exists.
    rewrite <- list_elem_of_In in Hin. rewrite (Hall _ Hin) in Hs. done.
Qed.


(** C4, as amended. A comment whose text matches none of the date/time
    patterns yields no record, whether or not it is spam and whatever
    vocabulary it contains. *)
Theorem undated_yields_no_record (now : datetime) comment text :
  dict_get comment (str "text") (SStr []) = SStr text →
  (∀ pattern, pattern ∈ date_patterns → search pattern text = false) →
  extract_event_info now comment = Ok None.
Proof.
  intros Htext Hd%contains_future_date_false.
  unfold extract_event_info. rewrite Htext, Hd.
  by destruct (is_spam text).
Qed.

(** C5. A comment that is not spam, matches a date/time pattern and
    contains a term of the event vocabulary yields a record that echoes its
    [comment_id], [text], [author] and [published_at], with [extracted_at]
    set to the ISO form of the clock reading followed by [Z]. *)
Theorem accepted_comment_record (now : datetime) comment text :
  dict_get comment (str "text") (SStr []) = SStr text →
  is_spam text = false →
  (∃ pattern, pattern ∈ date_patterns ∧ search pattern text = true) →
  (∃ keyword, keyword ∈ event_keywords ∧ contains keyword (lower text) = true) →
  extract_event_info now comment
  = Ok (Some
      [ (str "comment_id", dict_get comment (str "comment_id") SNone);
        (str "text", SStr text);
        (str "author", dict_get comment (str "author") SNone);
        (str "published_at", dict_get comment (str "published_at") SNone);
        (str "extracted_at", SStr (isoformat now ++ str "Z")) ]).
Proof.
  intros Htext Hspam (pattern & Hp & Hsearch) (keyword & Hk & Hc).
  unfold extract_event_info. rewrite Htext, Hspam.
  assert (contains_future_date text = true) as ->.
  { apply existsb_exists. exists pattern. by rewrite <- list_elem_of_In. }
  assert (contains_event_keyword text = true) as ->.
  { apply existsb_exists. exists keyword. by rewrite <- list_elem_of_In. }
  done.
Qed.

End analyzer_facts.


(** A text of 3 characters with a date expression, and a text of 600
    characters with a date expression and event vocabulary: both are
    rejected for their length. *)
Example length_rejections :
  extract_event_info (H := Reference.runtime) (Reference.clock 0)
    [(str "text", SStr (str "9時発"))] = Ok None
  ∧ extract_event_info (H := Reference.runtime) (Reference.clock 0)
      [(str "text", SStr (str "明日開催" ++ replicate 596 0x3042%N))] = Ok None.
Proof. split; reflexivity. Qed.

Lemma undated_yields_no_record_witness :
  extract_event_info (H := Reference.runtime) (Reference.clock 0)
    (sample_comment "c1" undated) = Ok None.
Proof.
  apply (undated_yields_no_record (H := Reference.runtime) (Reference.clock 0)
           (sample_comment "c1" undated) (str undated) eq_refl).
  apply (contains_future_date_false (H := Reference.runtime)). reflexivity.
Defined.

(** C4 as stated fails: this comment is not spam, matches no date/time
    pattern and contains event vocabulary, so passing it on to the
    vocabulary check would accept it; the extractor returns no record. *)
Lemma undated_comment_is_rejected :
  is_spam (H := Reference.runtime) (str undated) = false
  ∧ contains_future_date (H := Reference.runtime) (str undated) = false
  ∧ contains_event_keyword (H := Reference.runtime) (str undated) = true
  ∧ extract_event_info (H := Reference.runtime) (Reference.clock 0)
      (sample_comment "c1" undated) = Ok None.
Proof. repeat split; reflexivity. Qed.

Lemma accepted_comment_record_witness :
  extract_event_info (H := Reference.runtime) (Reference.clock 0)
    (sample_comment "c1" announcement)
  = Ok (Some
      [ (str "comment_id", SStr (str "c1"));
        (str "text", SStr (str announcement));
        (str "author", SStr (str "alice"));
        (str "published_at", SStr (str "2024-05-09T08:30:00Z"));
        (str "extracted_at", SStr (str "2024-05-10T12:00:00Z")) ]).
Proof.
  apply (accepted_comment_record (H := Reference.runtime) (Reference.clock 0)
           (sample_comment "c1" announcement) (str announcement) eq_refl).
  - reflexivity.
  - exists (lit (str "来週")). split; [|reflexivity].
    do 5 apply list_elem_of_further. apply list_elem_of_here.
  - exists (str "開催"). split; [|reflexivity]. apply list_elem_of_here.
Defined.

(** ** The video filter *)

Section filter_facts.
Context `{Runtime}.

Lemma rank_ltb_asym (a b : Z * Z) : rank_ltb a b = true → rank_ltb b a = false.
Proof.
  unfold rank_ltb.
  destruct (Z.eqb_spec a.1 b.1), (Z.eqb_spec b.1 a.1); lia.
Qed.

Lemma rank_ltb_trans (a b c : Z * Z) :
  rank_ltb a b = true → rank_ltb b c = true → rank_ltb a c = true.
Proof.
  unfold rank_ltb.
  destruct (Z.eqb_spec a.1 b.1), (Z.eqb_spec b.1 c.1), (Z.eqb_spec a.1 c.1);
    lia.
Qed.

Lemma page_loop_no_budget {I X} (f : I → option X) (cap limit : Z)
    (response : page I) :
  limit ≤ 0 → page_loop f cap limit [] response = Response [].
Proof.
  intros Hl. destruct response as [its nxt]. simpl.
  destruct (Z.ltb_spec (len (@nil X)) limit) as [Hlt|]; [|done].
  unfold len in Hlt. simpl in Hlt. lia.
Qed.

Lemma slice_to_take {A} (n : Z) (l : list A) :
  0 ≤ n → slice_to n l = take (Z.to_nat n) l.
Proof.
  intros Hn. unfold slice_to. by destruct (Z.leb_spec 0 n); [|lia].
Qed.

(** One turn of the filtering loop keeps the candidate exactly when its
    statistics are available, its comment count reaches the minimum, its
    publish time parses and its age does not exceed the maximum. *)
Lemma filter_video_Some statistics now min_comment_count days_old_max
    (vid : pystr) (c : candidate) :
  filter_video statistics now min_comment_count days_old_max vid = Some c
  ↔ ∃ st published,
      statistics !! vid = Some st
      ∧ min_comment_count ≤ comment_count st
      ∧ fromisoformat (replace_Z (published_at st)) = Some published
      ∧ days_between now (replace_tzinfo_none published) ≤ days_old_max
      ∧ c = {| video_id := vid;
               c_comment_count := comment_count st;
               days_old := days_between now (replace_tzinfo_none published);
               c_published_at := published_at st |}.
Proof.
  unfold filter_video. split.
  - destruct (statistics !! vid) as [st|] eqn:Hst; [|done].
    destruct (Z.ltb_spec (comment_count st) min_comment_count); [done|].
    destruct (fromisoformat (replace_Z (published_at st)))
      as [published|] eqn:Hp; [|done].
    destruct (Z.ltb_spec days_old_max
                (days_between now (replace_tzinfo_none published))); [done|].
    intros Hc. injection Hc as <-. exists st, published. by repeat split.
  - intros (st & published & -> & Hmin & -> & Hdays & ->).
    destruct (Z.ltb_spec (comment_count st) min_comment_count); [lia|].
    destruct (Z.ltb_spec days_old_max
                (days_between now (replace_tzinfo_none published))); [lia|].
    done.
Qed.

Lemma result_video_ids_spec (max_videos : Z) (survivors : list candidate) :
  0 ≤ max_videos →
  ∃ sorted, sorted ≡ₚ survivors ∧ StronglySorted ranked_before sorted
    ∧ result_video_ids max_videos survivors
      = Ok (video_id <$> take (Z.to_nat max_videos) sorted).
Proof.
  intros Hmax. unfold result_video_ids.
  destruct (sort_spec (λ a b, Ok (rank_ltb a b)) rank_ltb (λ _, True)
              (λ _ _ _ _, eq_refl)
              (λ a b _ _, rank_ltb_asym a b)
              (λ a b c _ _ _, rank_ltb_trans a b c)
              (λ x : candidate, Ok (- c_comment_count x, days_old x)) false
              survivors) as (sorted & -> & Hperm & Hs).
  { intros x _. eauto. }
  exists sorted. split; [done|]. split.
  - rewrite <- (list_fmap_id sorted).
    eapply (StronglySorted_weaken_fmap id (λ _, True));
      [by apply Forall_true | | exact Hs].
    intros x y _ _ Hxy. specialize (Hxy _ _ eq_refl eq_refl).
    unfold rank_ltb, ranked_before in *. simpl in *.
    destruct (Z.eqb_spec (- c_comment_count y) (- c_comment_count x)); lia.
  - by rewrite bind_Ok, slice_to_take.
Qed.

(** C6. The keyword search keeps a candidate exactly when its statistics
    are available, its comment count is at least [min_comment_count], its
    publish time parses and its age in days is at most [days_old_max]; it
    returns the ids of the survivors sorted by descending comment count,
    then ascending age, cut to the first [max_videos]. *)
Theorem keyword_filter_ranks (yt : youtube) (utcnow : nat → datetime)
    (tick : nat) (keyword order : pystr)
    (max_videos min_comment_count days_old_max : Z)
    (response : page search_item) (candidate_video_ids : list pystr) :
  search_list_q yt keyword (Z.min (max_videos * 3) 50) order
    = Response response →
  page_loop video_of 50 (max_videos * 3) [] response
    = Response candidate_video_ids →
  candidate_video_ids ≠ [] →
  let statistics := get_video_statistics yt candidate_video_ids in
  let now := utcnow tick in
  (∀ vid c,
     filter_video statistics now min_comment_count days_old_max vid = Some c
     ↔ ∃ st published,
         statistics !! vid = Some st
         ∧ min_comment_count ≤ comment_count st
         ∧ fromisoformat (replace_Z (published_at st)) = Some published
         ∧ days_between now (replace_tzinfo_none published) ≤ days_old_max
         ∧ c = {| video_id := vid;
                  c_comment_count := comment_count st;
                  days_old := days_between now (replace_tzinfo_none published);
                  c_published_at := published_at st |})
  ∧ ∃ sorted,
      sorted ≡ₚ omap (filter_video statistics now min_comment_count
                        days_old_max) candidate_video_ids
      ∧ StronglySorted ranked_before sorted
      ∧ search_videos_by_keyword yt utcnow tick keyword max_videos order
          min_comment_count days_old_max
        = (video_id <$> take (Z.to_nat max_videos) sorted, S tick).
Proof.
  intros Hreq Hloop Hne statistics now.
  split; [intros; apply filter_video_Some|].
  assert (0 ≤ max_videos) as Hmax.
  { destruct (Z.le_gt_cases 0 max_videos) as [|Hneg]; [done|].
    rewrite page_loop_no_budget in Hloop by lia. by injection Hloop as <-. }
  destruct (result_video_ids_spec max_videos
              (filtered_videos statistics now min_comment_count days_old_max
                 candidate_video_ids) Hmax) as (sorted & Hperm & Hs & Hres).
  exists sorted. split; [done|]. split; [done|].
  unfold search_videos_by_keyword. rewrite Hreq, Hloop.
  destruct candidate_video_ids as [|vid rest]; [done|].
  fold statistics. fold now. by rewrite Hres.
Qed.

End filter_facts.

Lemma keyword_filter_ranks_witness :
  let statistics :=
    get_video_statistics sample_youtube [str "v1"; str "v2"; str "v3"; str "v5"] in
  let now := Reference.clock 0 in
  (∀ vid c,
     filter_video (H := Reference.runtime) statistics now 10 7 vid = Some c
     ↔ ∃ st published,
         statistics !! vid = Some st
         ∧ 10 ≤ comment_count st
         ∧ Reference.ref_fromisoformat (replace_Z (published_at st))
           = Some published
         ∧ Reference.ref_days_between now published ≤ 7
         ∧ c = {| video_id := vid;
                  c_comment_count := comment_count st;
                  days_old := Reference.ref_days_between now published;
                  c_published_at := published_at st |})
  ∧ ∃ sorted,
      sorted ≡ₚ omap (filter_video (H := Reference.runtime) statistics now 10 7)
                  [str "v1"; str "v2"; str "v3"; str "v5"]
      ∧ StronglySorted ranked_before sorted
      ∧ search_videos_by_keyword (H := Reference.runtime) sample_youtube
          Reference.clock 0 (str "副業") 20 (str "date") 10 7
        = (video_id <$> take (Z.to_nat 20) sorted, 1%nat).
Proof.
  apply (keyword_filter_ranks (H := Reference.runtime) sample_youtube
           Reference.clock 0 (str "副業") (str "date") 20 10 7
           (Page (Some [video_item "v1"; video_item "v2";
                        video_item "v3"; video_item "v5"]) None)
           [str "v1"; str "v2"; str "v3"; str "v5"]).
  - reflexivity.
  - reflexivity.
  - discriminate.
Defined.

(** The boundary of the comment-count test, on the sample service: [v1] has
    10 comments and is kept, [v2] has 9 and is dropped, for a minimum of 10;
    [v3] is too old; [v5] is as commented as [v1] and more recent. *)
Example keyword_filter_boundary :
  search_videos_by_keyword (H := Reference.runtime) sample_youtube
    Reference.clock 0 (str "副業") 20 (str "date") 10 7
  = ([str "v5"; str "v1"], 1%nat).
Proof. reflexivity. Qed.

(** ** The comment aggregation *)

Section fetch_facts.
Context `{Runtime}.









End fetch_facts.


(** With a budget of 1, the two ids selected from the channel are asked for
    [1 // 2 + 1 = 1] comment each and the loop stops after the first. *)
Example aggregation_stops_early :
  fetch_comments (H := Reference.runtime) sample_youtube Reference.clock 0
    None (Some (str "UC1")) None None 20 1 10 7
  = Ok ([sample_comment "c1" announcement], 0%nat).
Proof. reflexivity. Qed.

(** ** The choice of the branch *)



(** ** The store and the run *)

Lemma load_existing_events_empty (data_file : file_state) :
  data_file = Absent ∨ data_file = Unreadable ∨ data_file = NotJson
  ∨ (∃ data, data_file = Document data ∧ ∀ l, data ≠ JList l) →
  load_existing_events data_file = [].
Proof.
  intros [->|[->|[->|(data & -> & Hdata)]]]; try done.
  destruct data as [?|l|?]; [done| |done]. by destruct (Hdata l).
Qed.

Lemma load_existing_events_list (l : list json) :
  load_existing_events (Document (JList l)) = l.
Proof. reflexivity. Qed.

(** C9. Malformed content of the store is to be taken as an empty starting
    collection and never to end the run with a failure status. The code
    breaks this for an array whose element is not a record: the array is
    loaded as it is, the merge raises on it, and the run ends with status 1;
    with no data file the same run ends with status 0 and saves the
    record. *)
Theorem malformed_record_is_fatal :
  load_existing_events (Document (JList [JScalar (SInt 1)]))
    = [JScalar (SInt 1)]
  ∧ merge_events [JScalar (SInt 1)] [extracted_c1] = Raise TypeError
  ∧ main (H := Reference.runtime) sample_environ
      (sample_disk (Document (JList [JScalar (SInt 1)]))) sample_build
      Reference.clock
    = {| exit_status := 1;
         saved := None;
         disk_after := sample_disk (Document (JList [JScalar (SInt 1)])) |}
  ∧ main (H := Reference.runtime) sample_environ (sample_disk Absent)
      sample_build Reference.clock
    = {| exit_status := 0;
         saved := Some [extracted_c1];
         disk_after := {| data_file := Document (JList [extracted_c1]);
                          writable := true;
                          after_failed_write := Absent |} |}.
Proof. repeat split; reflexivity. Qed.


Section run_facts.
Context `{Runtime}.

(** C10, as amended. In a run that reaches the merge, if the merged list is
    as long as the loaded one, [main] returns 0 without calling
    [save_events] and the data file is left as it was; this is the case
    whenever every extracted id is already in the store and no two records
    of the store share an id. *)
Theorem same_length_skips_save (env : environ) (d : disk)
    (build : pystr → option youtube) (utcnow : nat → datetime)
    (yt : youtube) (comments new_events : list pydict) (tick tick' : nat)
    (merged : list json) :
  let existing := load_existing_events (data_file d) in
  truthy (YOUTUBE_API_KEY env) = true →
  build (default [] (YOUTUBE_API_KEY env)) = Some yt →
  fetch_comments yt utcnow 0 (VIDEO_ID env) (CHANNEL_ID env) (CATEGORY_ID env)
    (search_keyword_arg (VIDEO_ID env) (CHANNEL_ID env) (CATEGORY_ID env)
       (default (str "副業") (SEARCH_KEYWORD env)))
    (default 20 (MAX_VIDEOS env)) (default 100 (MAX_RESULTS env))
    (default 10 (MIN_COMMENT_COUNT env)) (default 7 (DAYS_OLD_MAX env))
  = Ok (comments, tick) →
  comments ≠ [] →
  analyze_comments utcnow tick comments = Ok (new_events, tick') →
  new_events ≠ [] →
  merge_events existing (JObj <$> new_events) = Ok merged →
  (len merged = len existing →
   main env d build utcnow
   = {| exit_status := 0; saved := None; disk_after := d |})
  ∧ (NoDup (omap comment_id_key existing) →
     (∀ e, e ∈ new_events →
           ∃ x, x ∈ existing ∧ comment_id_key x = comment_id_key (JObj e)) →
     len merged = len existing).
Proof.
  intros existing Hkey Hbuild Hfetch Hcomments Hanalyze Hnew Hmerge. split.
  - intros Hlen. unfold main. rewrite Hkey, Hbuild. cbn [negb from_option].
    rewrite bind_Ok, Hfetch, bind_Ok.
    destruct comments as [|c cs]; [done|].
    rewrite Hanalyze, bind_Ok. destruct new_events as [|e es]; [done|].
    fold existing. rewrite Hmerge, bind_Ok.
    by rewrite (proj2 (Z.eqb_eq _ _) Hlen).
  - intros Hnd Hknown. apply (merge_events_same_length _ _ _ Hmerge Hnd).
    intros e (e' & -> & He')%list_elem_of_fmap. by apply Hknown.
Qed.

End run_facts.

Lemma same_length_skips_save_witness :
  let d := sample_disk (Document
             (JList [sample_record "c1" "old" "2024-01-01T00:00:00Z"])) in
  (len [extracted_c1] = len (load_existing_events (data_file d)) →
   main (H := Reference.runtime) sample_environ d sample_build Reference.clock
   = {| exit_status := 0; saved := None; disk_after := d |})
  ∧ (NoDup (omap comment_id_key (load_existing_events (data_file d))) →
     (∀ e, e ∈ [event_record (H := Reference.runtime) (Reference.clock 0)
                  (sample_comment "c1" announcement) (str announcement)] →
           ∃ x, x ∈ load_existing_events (data_file d)
                ∧ comment_id_key x = comment_id_key (JObj e)) →
     len [extracted_c1] = len (load_existing_events (data_file d))).
Proof.
  apply (same_length_skips_save (H := Reference.runtime) sample_environ
           (sample_disk (Document
              (JList [sample_record "c1" "old" "2024-01-01T00:00:00Z"])))
           sample_build Reference.clock sample_youtube
           [sample_comment "c1" announcement; sample_comment "c2" "いいね"]
           [event_record (H := Reference.runtime) (Reference.clock 0)
              (sample_comment "c1" announcement) (str announcement)]
           0 1 [extracted_c1]).
  - reflexivity.
  - reflexivity.
  - reflexivity.
  - discriminate.
  - reflexivity.
  - discriminate.
  - reflexivity.
Defined.

(** C10 as stated fails: when the store holds two records with the id of
    the extracted event, every extracted id is already in the store, yet the
    merged list is shorter than the loaded one and is saved. *)
Lemma duplicate_ids_are_saved :
  let d := sample_disk (Document
             (JList [sample_record "c1" "old" "2024-01-01T00:00:00Z";
                     sample_record "c1" "older" "2023-01-01T00:00:00Z"])) in
  comment_id_key extracted_c1
    = comment_id_key (sample_record "c1" "old" "2024-01-01T00:00:00Z")
  ∧ merge_events (load_existing_events (data_file d)) [extracted_c1]
    = Ok [extracted_c1]
  ∧ main (H := Reference.runtime) sample_environ d sample_build Reference.clock
    = {| exit_status := 0;
         saved := Some [extracted_c1];
         disk_after := {| data_file := Document (JList [extracted_c1]);
                          writable := true;
                          after_failed_write := data_file d |} |}.
Proof. repeat split; reflexivity. Qed.

(** The sample run with a store that already holds [c1]: the record is
    replaced in the merged list, which is not written. *)
Example replaced_record_not_written :
  let d := sample_disk (Document
             (JList [sample_record "c1" "old" "2024-01-01T00:00:00Z"])) in
  merge_events (load_existing_events (data_file d)) [extracted_c1]
    = Ok [extracted_c1]
  ∧ main (H := Reference.runtime) sample_environ d sample_build Reference.clock
    = {| exit_status := 0; saved := None; disk_after := d |}.
Proof. split; reflexivity. Qed.

(** * Further properties of the code *)

(** ** The paginated operations *)

Section page_facts.
Context {I X : Type} (f : I → option X).

(** Reasoning on a page and the pages that follow it. *)
Lemma page_induction (P : page I → Prop) :
  (∀ its nxt,
     (∀ next n p, nxt = Some next → next n = Response p → P p) →
     P (Page its nxt)) →
  ∀ p, P p.
Proof.
  intros HP. fix IH 1. intros [its [next|]].
  - assert (∀ n, match next n with Response p => P p | _ => True end) as Hn.
    { intros n. destruct (next n) as [p| |]; [apply IH | constructor..]. }
    apply HP. intros next' n p [= <-] Hp. specialize (Hn n).
    by rewrite Hp in Hn.
  - apply HP. intros next n p [=].
Qed.

Lemma extend_length (limit : Z) (acc : list X) (its : list I) :
  len (extend f limit acc its) ≤ Z.max limit (len acc).
Proof.
  revert acc. induction its as [|i its IH]; intros acc; simpl; [lia|].
  destruct (Z.leb_spec limit (len acc)); [lia|].
  destruct (f i) as [x|]; [|apply IH].
  etrans; [apply IH|]. unfold len in *. rewrite length_app. simpl. lia.
Qed.

Lemma extend_elem_of (limit : Z) (acc : list X) (its : list I) (x : X) :
  x ∈ extend f limit acc its → x ∈ acc ∨ ∃ i, i ∈ its ∧ f i = Some x.
Proof.
  revert acc. induction its as [|i its IH]; intros acc; simpl; [auto|].
  destruct (limit <=? len acc); [auto|].
  destruct (f i) as [y|] eqn:Hi.
  - intros [[Hx|Hx%list_elem_of_singleton]%elem_of_app|(j & Hj & Hf)]%IH.
    + by left.
    + subst. right. exists i. split; [by left | done].
    + right. exists j. split; [by right | done].
  - intros [Hx|(j & Hj & Hf)]%IH; [by left|].
    right. exists j. split; [by right | done].
Qed.

(** The loop never collects more than [limit] elements, and collects
    nothing but accepted items of the pages it is served. *)
Lemma page_loop_spec (cap limit : Z) (response : page I) :
  ∀ acc l, page_loop f cap limit acc response = Response l →
    len l ≤ Z.max limit (len acc)
    ∧ ∀ x, x ∈ l → x ∈ acc ∨ ∃ i, page_item response i ∧ f i = Some x.
Proof.
  induction response as [its nxt IH] using page_induction.
  intros acc l. cbn [page_loop].
  destruct (len acc <? limit); [|intros [= <-]; split; [lia | auto]].
  destruct its as [its|]; [|intros [= <-]; split; [lia | auto]].
  pose proof (extend_length limit acc its) as Hlen.
  assert (∀ x, x ∈ extend f limit acc its →
               x ∈ acc ∨ ∃ i, page_item (Page (Some its) nxt) i ∧ f i = Some x)
    as Helem.
  { intros x [?|(i & Hi & Hf)]%extend_elem_of; [by left|].
    right. exists i. split; [by constructor | done]. }
  destruct nxt as [next|]; [|intros [= <-]; split; [lia | auto]].
  destruct (len (extend f limit acc its) <? limit);
    [|intros [= <-]; split; [lia | auto]].
  destruct (next _) as [p| |] eqn:Hnext; [|done|done].
  intros [Hl Hx]%(IH next _ p eq_refl Hnext). split; [lia|].
  intros x [Hin|(i & Hi & Hf)]%Hx; [auto|].
  right. exists i. split; [by econstructor | done].
Qed.

End page_facts.

(** When every item is kept, the items collected from one page are the first
    ones the remaining budget allows. *)
Lemma extend_total {I X : Type} (g : I → X) (limit : Z) (acc : list X)
    (its : list I) :
  extend (λ i, Some (g i)) limit acc its
  = acc ++ take (Z.to_nat (limit - len acc)) (g <$> its).
Proof.
  revert acc. induction its as [|i its IH]; intros acc; simpl.
  - by rewrite take_nil, app_nil_r.
  - destruct (Z.leb_spec limit (len acc)) as [Hfull|Hmore].
    + replace (Z.to_nat (limit - len acc)) with 0%nat by lia.
      by rewrite app_nil_r.
    + rewrite IH. unfold len in *. rewrite length_app. simpl.
      replace (Z.to_nat (limit - Z.of_nat (length acc)))
        with (S (Z.to_nat (limit - Z.of_nat (length acc + 1)))) by lia.
      csimpl. by rewrite <- app_assoc.
Qed.

(** ** [get_video_comments] *)

Lemma get_video_comments_length (yt : youtube) (video_id : pystr)
    (max_results : Z) :
  len (get_video_comments yt video_id max_results) ≤ Z.max 0 max_results.
Proof.
  unfold get_video_comments.
  destruct (commentThreads_list yt video_id (Z.min max_results 100))
    as [response| |]; simpl; try (unfold len; simpl; lia).
  destruct (page_loop comment_of 100 max_results [] response) as [l| |] eqn:Hl;
    simpl; try (unfold len; simpl; lia).
  apply page_loop_spec in Hl as [Hl _]. unfold len in *. simpl in Hl. lia.
Qed.

(** X1. [get_video_comments] never returns more comments than asked for,
    and returns none for a budget that is not positive. *)
Theorem get_video_comments_budget (yt : youtube) (video_id : pystr)
    (max_results : Z) :
  len (get_video_comments yt video_id max_results) ≤ Z.max 0 max_results.
Proof. apply get_video_comments_length. Qed.

(** X2. When the first page carries no page token, or holds at least as
    many threads as asked for, the result is the comments of its first
    [max_results] threads, in the order of the page, and no further page is
    consulted. *)
Theorem get_video_comments_first_page (yt : youtube) (video_id : pystr)
    (max_results : Z) (its : list thread)
    (nxt : option (Z → api_result (page thread))) :
  commentThreads_list yt video_id (Z.min max_results 100)
    = Response (Page (Some its) nxt) →
  nxt = None ∨ max_results ≤ len its →
  get_video_comments yt video_id max_results
  = take (Z.to_nat max_results) (thread_comment <$> its).
Proof.
  intros Hreq Hone. unfold get_video_comments. rewrite Hreq.
  cbn [page_loop or_empty].
  change comment_of with (λ i : thread, Some (thread_comment i)).
  rewrite extend_total. change (len []) with 0.
  rewrite Z.sub_0_r, app_nil_l.
  destruct (Z.ltb_spec 0 max_results) as [Hpos|Hneg]; simpl.
  - destruct nxt as [next|]; [|done].
    destruct Hone as [?|Hfull]; [done|].
    destruct (Z.ltb_spec (len (take (Z.to_nat max_results)
                                 (thread_comment <$> its))) max_results)
      as [Hlt|]; [|done].
    unfold len in *. rewrite length_take, length_fmap in Hlt. lia.
  - by replace (Z.to_nat max_results) with 0%nat by lia.
Qed.

Lemma get_video_comments_first_page_witness :
  get_video_comments sample_youtube (str "v1") 1
  = take (Z.to_nat 1)
      (thread_comment <$> take (Z.to_nat 1) (sample_threads (str "v1"))).
Proof.
  apply (get_video_comments_first_page sample_youtube (str "v1") 1
           (take (Z.to_nat 1) (sample_threads (str "v1"))) None).
  - reflexivity.
  - left. reflexivity.
Defined.




(** ** [search_videos_by_category] *)

(** X4. The category search returns at most [max_videos] ids, none when
    [max_videos] is not positive, and each of them is the [videoId] of an
    item of kind [youtube#video] of a page it was served. *)
Theorem search_videos_by_category_sound (yt : youtube)
    (category_id order : pystr) (max_videos : Z) :
  len (search_videos_by_category yt category_id max_videos order)
    ≤ Z.max 0 max_videos
  ∧ ∀ vid, vid ∈ search_videos_by_category yt category_id max_videos order →
      ∃ response item,
        search_list_category yt category_id (Z.min max_videos 50) order
          = Response response
        ∧ page_item response item
        ∧ kind item = str "youtube#video" ∧ videoId item = vid.
Proof.
  unfold search_videos_by_category.
  destruct (search_list_category yt category_id (Z.min max_videos 50) order)
    as [response| |]; simpl;
    try (split; [unfold len; simpl; lia | by intros ? ?%elem_of_nil]).
  destruct (page_loop video_of 50 max_videos [] response) as [l| |] eqn:Hl;
    simpl; try (split; [unfold len; simpl; lia | by intros ? ?%elem_of_nil]).
  apply page_loop_spec in Hl as [Hlen Hl]. split.
  - unfold len in *. simpl in Hlen. lia.
  - intros vid [Hc|(item & Hitem & Hf)]%Hl; [by apply elem_of_nil in Hc|].
    exists response, item. unfold video_of in Hf.
    destruct (decide (kind item = str "youtube#video")); [|done].
    by injection Hf as <-.
Qed.

(** ** [get_video_statistics] *)

Lemma batches_concat {A} (fuel : nat) (l : list A) :
  (length l ≤ fuel)%nat → concat (batches fuel l) = l.
Proof.
  revert l. induction fuel as [|fuel IH]; intros l Hl.
  - destruct l; [done | simpl in Hl; lia].
  - destruct l as [|x l]; [done|]. cbn [batches concat].
    rewrite IH; [apply take_drop|].
    rewrite length_drop. simpl in *. lia.
Qed.

Lemma batches_sizes {A} (fuel : nat) (l : list A) :
  Forall (λ b, (0 < length b ≤ 50)%nat) (batches fuel l).
Proof.
  revert l. induction fuel as [|fuel IH]; intros l; [constructor|].
  destruct l as [|x l]; [constructor|]. cbn [batches].
  constructor; [|apply IH]. rewrite length_take. cbn [length]. lia.
Qed.

(** X5. The statistics are requested in batches that hold between 1 and 50
    ids each and that, put end to end, give back the list of ids: every id
    is sent once, in order. *)
Theorem batches_partition {A} (l : list A) :
  concat (batches (length l) l) = l
  ∧ Forall (λ b, (0 < length b ≤ 50)%nat) (batches (length l) l).
Proof. split; [by apply batches_concat | apply batches_sizes]. Qed.




Lemma lookup_foldl_insert_stats (statistics : gmap pystr stats)
    (its : list video) (vid : pystr) :
  foldl (λ st item, <[video_item_id item := stats_of item]> st) statistics its
    !! vid
  = match last (filter (λ item, video_item_id item = vid) its) with
    | Some item => Some (stats_of item)
    | None => statistics !! vid
    end.
Proof.
  induction its as [|item its IH] using rev_ind; [done|].
  rewrite foldl_app, filter_app. simpl. rewrite filter_cons, filter_nil.
  destruct (decide (video_item_id item = vid)) as [<-|Hne].
  - by rewrite lookup_insert_eq, last_snoc.
  - by rewrite lookup_insert_ne, app_nil_r.
Qed.

Lemma statistics_loop_lookup (yt : youtube) (bs : list (list pystr))
    (vid : pystr) :
  (∀ b, b ∈ bs → ∃ its, videos_list yt b = Response its) →
  ∀ statistics, ∃ r,
    statistics_loop yt statistics bs = Response r
    ∧ r !! vid
      = match last (filter (λ item, video_item_id item = vid)
                      (batch_items yt bs)) with
        | Some item => Some (stats_of item)
        | None => statistics !! vid
        end.
Proof.
  induction bs as [|b bs IH]; intros Hbs statistics.
  - by exists statistics.
  - destruct (Hbs b) as [its Hits]; [by left|].
    destruct (IH (λ b' Hb', Hbs b' (list_elem_of_further _ _ _ Hb'))
                (foldl (λ st item, <[video_item_id item := stats_of item]> st)
                       statistics its)) as (r & Hr & Hlook).
    exists r. cbn [statistics_loop]. rewrite Hits. split; [done|].
    rewrite Hlook. unfold batch_items. cbn. rewrite Hits.
    rewrite filter_app, last_app.
    fold (batch_items yt bs).
    destruct (last (filter _ (batch_items yt bs))); [done|].
    apply lookup_foldl_insert_stats.
Qed.

(** X7. When every batch is answered, the statistics of a video are those
    of the last item returned with its id, a count missing from the item
    read as 0 and a text as the empty string; a video no item was returned
    for has no entry. *)
Theorem get_video_statistics_lookup (yt : youtube) (video_ids : list pystr)
    (vid : pystr) :
  (∀ b, b ∈ batches (length video_ids) video_ids →
        ∃ its, videos_list yt b = Response its) →
  get_video_statistics yt video_ids !! vid
  = stats_of <$> last (filter (λ item, video_item_id item = vid)
                         (batch_items yt
                            (batches (length video_ids) video_ids))).
Proof.
  intros Hbs. unfold get_video_statistics.
  destruct video_ids as [|v rest]; [done|].
  destruct (statistics_loop_lookup yt _ vid Hbs ∅) as (r & -> & ->).
  destruct (last _); [done|]. apply lookup_empty.
Qed.

Lemma get_video_statistics_lookup_witness :
  get_video_statistics sample_youtube [str "v1"; str "v2"] !! str "v2"
  = stats_of <$> last (filter (λ item, video_item_id item = str "v2")
                         (batch_items sample_youtube
                            (batches 2 [str "v1"; str "v2"]))).
Proof.
  apply (get_video_statistics_lookup sample_youtube [str "v1"; str "v2"]
           (str "v2")).
  intros b _. eexists. reflexivity.
Defined.

(** ** [search_videos_by_keyword] and [fetch_comments], whatever the service
    answers *)

Section fetch_total.
Context `{Runtime}.








End fetch_total.

(** ** [analyze_comments] *)

Section analyze_facts.
Context `{Runtime}.

Lemma extract_event_info_accepts (now : datetime) (comment : pydict) :
  str_text comment →
  extract_event_info now comment
  = Ok (if accepts comment
        then Some (event_record now comment (text_of comment))
        else None).
Proof.
  intros [text Htext]. unfold extract_event_info, accepts, text_of.
  rewrite Htext. destruct (is_spam text); [done|].
  destruct (contains_future_date text); [|done].
  by destruct (contains_event_keyword text).
Qed.


(** X10. On comments whose text is a string (or missing), [analyze_comments]
    returns the records of exactly the comments that pass the three checks,
    in the order of the input, the [i]-th record stamped with the [i]-th
    reading of the clock, and reads the clock once per record. *)
Theorem analyze_comments_spec (utcnow : nat → datetime) (tick : nat)
    (comments : list pydict) :
  Forall str_text comments →
  let accepted := filter (λ c, accepts c = true) comments in
  analyze_comments utcnow tick comments
  = Ok (imap (λ i c, event_record (utcnow (tick + i)%nat) c (text_of c))
             accepted,
        (tick + length accepted)%nat).
Proof.
  intros Hall. revert tick.
  induction Hall as [|c rest Hc _ IH]; intros tick; cbn zeta in *.
  - cbn. do 2 f_equal. lia.
  - cbn [analyze_comments]. rewrite (extract_event_info_accepts _ _ Hc).
    rewrite bind_Ok, filter_cons.
    destruct (accepts c) eqn:Hacc.
    + rewrite decide_True by done. rewrite IH, bind_Ok. cbn [length].
      rewrite imap_cons. do 2 f_equal; [f_equal|lia].
      * do 2 f_equal. lia.
      * apply imap_ext. intros i x _. simpl. do 2 f_equal. lia.
    + rewrite decide_False by done. apply IH.
Qed.

(** X11. If the text of some comment is present and is not a string,
    [analyze_comments] raises [TypeError] and returns no record at all. *)
Theorem analyze_comments_type_error (utcnow : nat → datetime) (tick : nat)
    (comments : list pydict) (comment : pydict) :
  comment ∈ comments → ¬ str_text comment →
  analyze_comments utcnow tick comments = Raise TypeError.
Proof.
  intros Hin Hbad. revert tick.
  induction comments as [|c rest IH]; intros tick;
    [by apply elem_of_nil in Hin|].
  cbn [analyze_comments].
  assert (∀ c', ¬ str_text c' → ∀ now, extract_event_info now c' = Raise TypeError)
    as Hraise.
  { intros c' Hc' now. unfold extract_event_info, str_text in *.
    destruct (dict_get c' (str "text") (SStr [])) as [| | |text];
      try done. destruct Hc'. by exists text. }
  assert (∀ c' now, extract_event_info now c' = Raise TypeError
                     ∨ ∃ r, extract_event_info now c' = Ok r) as Hcases.
  { intros c' now. unfold extract_event_info.
    destruct (dict_get c' (str "text") (SStr [])) as [| | |text]; auto.
    right. destruct (is_spam text); [by eexists|].
    destruct (negb (contains_future_date text)); [by eexists|].
    destruct (negb (contains_event_keyword text)); by eexists. }
  apply elem_of_cons in Hin as [<-|Hin]; [by rewrite Hraise|].
  destruct (Hcases c (utcnow tick)) as [->|[[e|] ->]]; [done| |].
  - rewrite bind_Ok, IH by done. done.
  - rewrite bind_Ok. by apply IH.
Qed.

Lemma lstrip_blank (text : pystr) :
  Forall (λ c, isspace c = true) text → lstrip text = [].
Proof. induction 1 as [|c text Hc _ IH]; simpl; [done|]. by rewrite Hc. Qed.

(** X12. A comment with no text, or whose text is empty or made of white
    space only, yields no record. *)
Theorem blank_text_yields_no_record (now : datetime) (comment : pydict) :
  (getitem_opt (str "text") comment = None →
   extract_event_info now comment = Ok None)
  ∧ ∀ text, dict_get comment (str "text") (SStr []) = SStr text →
      Forall (λ c, isspace c = true) text →
      extract_event_info now comment = Ok None.
Proof.
  assert (∀ text, dict_get comment (str "text") (SStr []) = SStr text →
            Forall (λ c, isspace c = true) text →
            extract_event_info now comment = Ok None) as Hblank.
  { intros text Htext Hspace. unfold extract_event_info. rewrite Htext.
    assert (is_spam text = true) as ->; [|done].
    apply is_spam_true. right; left. unfold strip.
    rewrite (lstrip_blank text Hspace). reflexivity. }
  split; [|exact Hblank].
  intros Hnone. apply (Hblank []); [|constructor].
  unfold dict_get. by rewrite Hnone.
Qed.

End analyze_facts.

Lemma blank_text_yields_no_record_witness :
  extract_event_info (H := Reference.runtime) (Reference.clock 0)
    [(str "comment_id", SStr (str "c1")); (str "text", SStr (str "   "))]
  = Ok None.
Proof.
  apply (proj2 (blank_text_yields_no_record (H := Reference.runtime)
                  (Reference.clock 0)
                  [(str "comment_id", SStr (str "c1"));
                   (str "text", SStr (str "   "))])
           (str "   ")).
  - reflexivity.
  - repeat constructor.
Defined.

Lemma analyze_comments_spec_witness :
  analyze_comments (H := Reference.runtime) Reference.clock 0
    [sample_comment "c1" announcement; sample_comment "c2" "いいね"]
  = Ok ([event_record (H := Reference.runtime) (Reference.clock 0)
           (sample_comment "c1" announcement) (str announcement)], 1%nat).
Proof.
  apply (analyze_comments_spec (H := Reference.runtime) Reference.clock 0
           [sample_comment "c1" announcement; sample_comment "c2" "いいね"]).
  repeat constructor; eexists; reflexivity.
Defined.

Lemma analyze_comments_type_error_witness :
  analyze_comments (H := Reference.runtime) Reference.clock 0
    [sample_comment "c1" announcement; [(str "text", SNone)]]
  = Raise TypeError.
Proof.
  apply (analyze_comments_type_error (H := Reference.runtime) Reference.clock 0
           [sample_comment "c1" announcement; [(str "text", SNone)]]
           [(str "text", SNone)]).
  - apply list_elem_of_further, list_elem_of_here.
  - intros [text Htext]. discriminate Htext.
Defined.

(** ** [merge_events]: invariants and errors *)

Section sort_fixed.
Context {A K : Type} (lt : K → K → result bool) (ltb : K → K → bool).
Context (good : K → Prop).
Hypothesis lt_good : ∀ a b, good a → good b → lt a b = Ok (ltb a b).

Lemma insort_last (x : K * A) (acc : list (K * A)) :
  good x.1 → Forall (λ p, good p.1) acc →
  Forall (λ y, asc ltb y x) acc → insort lt x acc = Ok (acc ++ [x]).
Proof.
  intros Hx Hgood Hle. induction acc as [|y acc IH]; simpl; [done|].
  apply Forall_cons in Hgood as [Hy Hgood].
  apply Forall_cons in Hle as [Hyx Hle].
  unfold asc in Hyx. rewrite (lt_good _ _ Hx Hy), bind_Ok, Hyx.
  by rewrite IH.
Qed.

Lemma foldM_insort_sorted (l acc : list (K * A)) :
  Forall (λ p, good p.1) (acc ++ l) → StronglySorted (asc ltb) (acc ++ l) →
  foldM (λ acc x, insort lt x acc) acc l = Ok (acc ++ l).
Proof.
  revert acc. induction l as [|x l IH]; intros acc Hgood Hs; simpl.
  - by rewrite app_nil_r.
  - rewrite insort_last.
    + rewrite bind_Ok, IH; rewrite <- ?app_assoc; done.
    + apply Forall_app in Hgood as [_ Hgood]. by apply Forall_cons in Hgood as [? _].
    + by apply Forall_app in Hgood as [? _].
    + apply StronglySorted_app in Hs as (Hcross & _ & _).
      apply Forall_forall. intros y Hy. apply Hcross; [done | by left].
Qed.

Lemma StronglySorted_fmap_inv {B C} (f : B → C) (P : B → Prop)
    (R1 : relation B) (R2 : relation C) (l : list B) :
  Forall P l → (∀ x y, P x → P y → R2 (f x) (f y) → R1 x y) →
  StronglySorted R2 (f <$> l) → StronglySorted R1 l.
Proof.
  intros HP HR. induction HP as [|x l Hx HP IH]; csimpl; [constructor|].
  intros [Hall Hs]%StronglySorted_cons. constructor; [auto|].
  rewrite Forall_fmap in Hall. rewrite Forall_forall in Hall, HP |- *.
  intros y Hy. apply HR; auto. by apply Hall.
Qed.

(** Sorting a list that is in order already gives the list back: the sort
    is stable. *)
Lemma sort_sorted (key : A → result K) (reversed : bool) (l : list A) :
  (∀ x, x ∈ l → ∃ k, key x = Ok k ∧ good k) →
  StronglySorted (sorted_by ltb key reversed) l →
  sort lt key reversed l = Ok l.
Proof.
  intros Hl Hs. unfold sort.
  destruct (mapM_keyed good key l Hl) as (keyed & -> & Hsnd & Hall).
  rewrite bind_Ok. subst l.
  assert (Hgood : Forall (λ p : K * A, good p.1) keyed).
  { eapply Forall_impl; [exact Hall|]. by intros ? [_ ?]. }
  destruct reversed.
  - assert (StronglySorted (flip (asc ltb)) keyed) as Hk.
    { eapply (StronglySorted_fmap_inv snd
                (λ p : K * A, key p.2 = Ok p.1 ∧ good p.1) _
                (sorted_by ltb key true)); [exact Hall| |exact Hs].
      intros p q [Hp _] [Hq _] Hpq. exact (Hpq _ _ Hp Hq). }
    apply StronglySorted_rev in Hk.
    rewrite (foldM_insort_sorted (reverse keyed) []), bind_Ok.
    + rewrite app_nil_l. by rewrite reverse_involutive.
    + by rewrite app_nil_l, reverse_Permutation.
    + exact Hk.
  - assert (StronglySorted (asc ltb) keyed) as Hk.
    { eapply (StronglySorted_fmap_inv snd
                (λ p : K * A, key p.2 = Ok p.1 ∧ good p.1) _
                (sorted_by ltb key false)); [exact Hall| |exact Hs].
      intros p q [Hp _] [Hq _] Hpq. exact (Hpq _ _ Hp Hq). }
    by rewrite (foldM_insort_sorted keyed []), bind_Ok.
Qed.

End sort_fixed.

Lemma foldM_app {A B} (f : B → A → result B) (b : B) (l1 l2 : list A) :
  foldM f b (l1 ++ l2) = (foldM f b l1 ≫= λ b', foldM f b' l2).
Proof.
  revert b. induction l1 as [|x l1 IH]; intros b; simpl; [reflexivity|].
  destruct (f b x) as [b'|e]; simpl; [apply IH | reflexivity].
Qed.

Section merge_more.
Implicit Types (d : list (pykey * json)) (e : json) (k : pykey).

Lemma setitem_fresh {V} (d : list (pykey * V)) k (v : V) :
  k ∉ d.*1 → setitem k v d = d ++ [(k, v)].
Proof.
  induction d as [|[k0 v0] d IH]; csimpl; [done|].
  intros [Hne Hout]%not_elem_of_cons.
  rewrite decide_False by done. by rewrite IH.
Qed.

Lemma foldl_dict_add_fresh d (l : list json) :
  NoDup (d.*1 ++ omap comment_id_key l) →
  Forall (λ e, is_Some (comment_id_key e)) l →
  foldl dict_add d l = d ++ omap (λ e, k ← comment_id_key e; Some (k, e)) l.
Proof.
  revert d. induction l as [|e l IH]; intros d Hnd Hl; csimpl in *.
  - by rewrite app_nil_r.
  - apply Forall_cons in Hl as [[k Hk] Hl]. unfold dict_add at 2.
    rewrite Hk in Hnd |- *. csimpl in *.
    assert (k ∉ d.*1) as Hfresh.
    { apply NoDup_app in Hnd as (_ & Hdis & _). intros Hin.
      apply (Hdis k Hin). by left. }
    rewrite setitem_fresh by done. rewrite IH; [by rewrite <- app_assoc| |done].
    by rewrite fmap_app, <- app_assoc.
Qed.

Lemma values_foldl_dict_add_fresh (l : list json) :
  NoDup (omap comment_id_key l) →
  Forall (λ e, is_Some (comment_id_key e)) l →
  values (foldl dict_add [] l) = l.
Proof.
  intros Hnd Hl. rewrite foldl_dict_add_fresh by done. unfold values. simpl.
  clear Hnd. induction Hl as [|e l [k Hk] _ IH]; csimpl; [done|].
  rewrite Hk. csimpl. by rewrite IH.
Qed.

Lemma keyed_ids d :
  Forall (λ p : pykey * json, comment_id_key p.2 = Some p.1) d →
  comment_id_key <$> d.*2 = Some <$> d.*1.
Proof.
  induction 1 as [|[k e] d Hk _ IH]; csimpl; [done|].
  simpl in Hk. by rewrite Hk, IH.
Qed.

Lemma getitem_opt_elem_of {V} (d : list (pykey * V)) k (v : V) :
  getitem_opt k d = Some v → v ∈ d.*2.
Proof.
  induction d as [|[k0 v0] d IH]; csimpl; [done|].
  destruct (decide (k = k0)); [intros [= ->]; by left|].
  intros Hd. right. by apply IH.
Qed.

(** The ids of the records [merge_events] returns are pairwise distinct. *)
Lemma merge_events_ids (existing incoming out : list json) :
  merge_events existing incoming = Ok out →
  NoDup (comment_id_key <$> out)
  ∧ Forall (λ e, is_Some (comment_id_key e)) out.
Proof.
  intros (Hperm & _ & _)%merge_events_Ok_inv.
  destruct (foldl_dict_add_invariant [] existing) as [Hnd0 Hk0];
    [constructor | constructor |].
  destruct (foldl_dict_add_invariant _ incoming Hnd0 Hk0) as [Hnd Hk].
  rewrite Hperm. unfold values. split.
  - rewrite keyed_ids by done. by apply (NoDup_fmap_2 Some).
  - apply Forall_fmap. eapply Forall_impl; [exact Hk|].
    intros [k e] He. simpl in *. by rewrite He.
Qed.

(** X13. Whenever [merge_events] returns, every record of the output has a
    [comment_id] and no two records share one: the list handed to
    [save_events] satisfies the invariant of the store, whatever the data
    file held. *)
Theorem merge_events_distinct_ids (existing incoming out : list json) :
  merge_events existing incoming = Ok out →
  NoDup (comment_id_key <$> out)
  ∧ Forall (λ e, is_Some (comment_id_key e)) out.
Proof. apply merge_events_ids. Qed.

Lemma merge_events_distinct_ids_witness :
  NoDup (comment_id_key <$>
           [sample_record "b" "kept" "2024-03-01T00:00:00Z";
            sample_record "a" "new" "2024-02-01T00:00:00Z"])
  ∧ Forall (λ e, is_Some (comment_id_key e))
           [sample_record "b" "kept" "2024-03-01T00:00:00Z";
            sample_record "a" "new" "2024-02-01T00:00:00Z"].
Proof.
  apply (merge_events_distinct_ids
           [sample_record "a" "old" "2024-01-01T00:00:00Z";
            sample_record "b" "kept" "2024-03-01T00:00:00Z"]
           [sample_record "a" "new" "2024-02-01T00:00:00Z"]).
  reflexivity.
Defined.

(** X14. [merge_events] invents no record: each record of the output is a
    record of one of the inputs. It loses none either: the last existing
    record of an id that no incoming record has is in the output. *)
Theorem merge_events_frame (existing incoming out : list json) :
  merge_events existing incoming = Ok out →
  (∀ e, e ∈ out → e ∈ existing ∨ e ∈ incoming)
  ∧ ∀ e k,
      last (filter (λ x, comment_id_key x = Some k) existing) = Some e →
      filter (λ x, comment_id_key x = Some k) incoming = [] →
      e ∈ out.
Proof.
  intros (Hperm & _ & _)%merge_events_Ok_inv. split.
  - intros e He. rewrite Hperm in He.
    apply elem_of_foldl_dict_add in He as [He|He]; [|by right].
    apply elem_of_foldl_dict_add in He as [He|He]; [|by left].
    by apply elem_of_nil in He.
  - intros e k Hlast Hnone. rewrite Hperm.
    apply (getitem_opt_elem_of _ k).
    rewrite getitem_opt_foldl_dict_add, Hnone. simpl.
    by rewrite getitem_opt_foldl_dict_add, Hlast.
Qed.

Lemma merge_events_frame_witness :
  sample_record "b" "kept" "2024-03-01T00:00:00Z"
  ∈ [sample_record "b" "kept" "2024-03-01T00:00:00Z";
     sample_record "a" "new" "2024-02-01T00:00:00Z"].
Proof.
  apply (proj2 (merge_events_frame
           [sample_record "a" "old" "2024-01-01T00:00:00Z";
            sample_record "b" "kept" "2024-03-01T00:00:00Z"]
           [sample_record "a" "new" "2024-02-01T00:00:00Z"]
           [sample_record "b" "kept" "2024-03-01T00:00:00Z";
            sample_record "a" "new" "2024-02-01T00:00:00Z"]
           eq_refl)
           (sample_record "b" "kept" "2024-03-01T00:00:00Z")
           (KStr (str "b"))).
  - reflexivity.
  - reflexivity.
Defined.

Lemma merge_events_well_formed (existing incoming out : list json) :
  Forall well_formed existing → Forall well_formed incoming →
  merge_events existing incoming = Ok out → Forall well_formed out.
Proof.
  intros Hex Hinc (Hperm & _ & _)%merge_events_Ok_inv.
  rewrite Hperm. apply Forall_forall. intros e He.
  rewrite Forall_forall in Hex, Hinc.
  apply elem_of_foldl_dict_add in He as [He|He]; [|by apply Hinc].
  apply elem_of_foldl_dict_add in He as [He|He]; [|by apply Hex].
  by apply elem_of_nil in He.
Qed.

(** X15. Merging is idempotent: the list [merge_events] returns on
    well-formed records is returned unchanged, order included, when it is
    merged again with nothing new. *)
Theorem merge_events_idempotent (existing incoming out : list json) :
  Forall well_formed existing → Forall well_formed incoming →
  merge_events existing incoming = Ok out →
  merge_events out [] = Ok out.
Proof.
  intros Hex Hinc Hout.
  pose proof (merge_events_well_formed _ _ _ Hex Hinc Hout) as Hwf.
  destruct (merge_events_ids _ _ _ Hout) as [Hnd Hids].
  destruct (merge_events_ok existing incoming Hex Hinc) as (out' & Hout' & _ & Hs).
  rewrite Hout in Hout'. injection Hout' as <-.
  assert (NoDup (omap comment_id_key out)) as Hnd'.
  { clear -Hnd Hids. induction Hids as [|e l [k Hk] _ IH]; csimpl in *;
      [constructor|]. rewrite Hk in Hnd |- *. csimpl.
    apply NoDup_cons in Hnd as [Hout Hnd]. constructor; [|by apply IH].
    intros (e' & He' & Hk')%list_elem_of_omap. apply Hout.
    apply list_elem_of_fmap. exists e'. by rewrite Hk'. }
  unfold merge_events. rewrite foldM_events_add, bind_Ok by done.
  cbn [foldM]. rewrite bind_Ok, values_foldl_dict_add_fresh by done.
  apply (sort_sorted py_lt key_ltb is_str py_lt_str); [|exact Hs].
  intros x Hx. rewrite Forall_forall in Hwf.
  destruct (Hwf x Hx) as [_ [s Hs']].
  exists (SStr s). split; [by apply extracted_at_key_get | by exists s].
Qed.

Lemma merge_events_idempotent_witness :
  merge_events [sample_record "b" "kept" "2024-03-01T00:00:00Z";
                sample_record "a" "new" "2024-02-01T00:00:00Z"] []
  = Ok [sample_record "b" "kept" "2024-03-01T00:00:00Z";
        sample_record "a" "new" "2024-02-01T00:00:00Z"].
Proof.
  apply (merge_events_idempotent
           [sample_record "a" "old" "2024-01-01T00:00:00Z";
            sample_record "b" "kept" "2024-03-01T00:00:00Z"]
           [sample_record "a" "new" "2024-02-01T00:00:00Z"]).
  - solve_well_formed.
  - solve_well_formed.
  - reflexivity.
Defined.

(** X16. [merge_events] raises on the first record, existing ones first,
    that has no [comment_id]: [KeyError] if it is an object, [TypeError] if
    it is any other value. *)
Theorem merge_events_missing_id (existing incoming good rest : list json)
    (bad : json) :
  existing ++ incoming = good ++ bad :: rest →
  Forall (λ e, is_Some (comment_id_key e)) good →
  comment_id_key bad = None →
  merge_events existing incoming
  = Raise (match bad with JObj _ => KeyError | _ => TypeError end).
Proof.
  intros Hsplit Hgood Hbad.
  assert (foldM events_add [] (existing ++ incoming)
          = Raise (match bad with JObj _ => KeyError | _ => TypeError end))
    as Hfold.
  { rewrite Hsplit, foldM_app, foldM_events_add, bind_Ok by done.
    cbn [foldM]. unfold events_add, comment_id_key in *.
    destruct bad as [?|?|dict]; try done. simpl in *.
    by destruct (getitem_opt (str "comment_id") dict). }
  rewrite foldM_app in Hfold. unfold merge_events.
  destruct (foldM events_add [] existing) as [d1|err].
  - rewrite bind_Ok in Hfold. by rewrite bind_Ok, Hfold.
  - cbv [mbind result_bind] in Hfold |- *. by injection Hfold as ->.
Qed.

Lemma merge_events_missing_id_witness :
  merge_events [sample_record "a" "old" "2024-01-01T00:00:00Z";
                JObj [(str "text", SStr (str "no id"))]]
               [sample_record "b" "new" "2024-02-01T00:00:00Z"]
  = Raise KeyError.
Proof.
  apply (merge_events_missing_id
           [sample_record "a" "old" "2024-01-01T00:00:00Z";
            JObj [(str "text", SStr (str "no id"))]]
           [sample_record "b" "new" "2024-02-01T00:00:00Z"]
           [sample_record "a" "old" "2024-01-01T00:00:00Z"]
           [sample_record "b" "new" "2024-02-01T00:00:00Z"]
           (JObj [(str "text", SStr (str "no id"))])).
  - reflexivity.
  - repeat constructor. eexists; reflexivity.
  - reflexivity.
Defined.

(** A sort key that is [None] compares with nothing. *)
Lemma py_lt_raise (a b : scalar) (err : exn) :
  py_lt a b = Raise err → err = TypeError.
Proof. destruct a, b; simpl; congruence. Qed.

Lemma py_lt_None_l (b : scalar) : py_lt SNone b = Raise TypeError.
Proof. done. Qed.

Lemma py_lt_None_r (a : scalar) : py_lt a SNone = Raise TypeError.
Proof. by destruct a. Qed.

Lemma insort_raise {A} (x : scalar * A) (l : list (scalar * A)) (err : exn) :
  insort py_lt x l = Raise err → err = TypeError.
Proof.
  induction l as [|y l IH]; simpl; [done|].
  destruct (py_lt x.1 y.1) as [[]|err'] eqn:Hlt; simpl.
  - done.
  - destruct (insort py_lt x l) as [r|err'']; simpl; [done|].
    intros [= <-]. by apply IH.
  - intros [= <-]. by apply py_lt_raise in Hlt.
Qed.

Lemma foldM_insort_None {A} (l acc : list (scalar * A)) :
  (Exists (λ p, p.1 = SNone) l ∧ (acc ≠ [] ∨ 2 ≤ length l)%nat)
  ∨ (∃ y, acc = [y] ∧ y.1 = SNone ∧ l ≠ []) →
  foldM (λ acc x, insort py_lt x acc) acc l = Raise TypeError.
Proof.
  revert acc. induction l as [|x l IH]; intros acc.
  - intros [[Hex _]|(y & _ & _ & Hne)]; [by apply Exists_nil in Hex | done].
  - intros [[Hex Hsize]|(y & -> & Hy & _)]; cbn [foldM].
    + destruct (decide (x.1 = SNone)) as [Hx|Hx].
      * destruct acc as [|y acc].
        -- cbn [insort]. rewrite bind_Ok. apply IH. right.
           exists x. repeat split; [done|].
           destruct Hsize as [?|Hlen]; [done|]. intros ->. simpl in Hlen. lia.
        -- cbn [insort]. by rewrite Hx, py_lt_None_l.
      * apply Exists_cons in Hex as [?|Hex]; [done|].
        destruct (insort py_lt x acc) as [acc'|err] eqn:Hins.
        -- rewrite bind_Ok. apply IH. left. split; [done|]. left.
           intros ->. apply insort_Permutation in Hins.
           by apply Permutation_nil_cons in Hins.
        -- apply insort_raise in Hins as ->. done.
    + cbn [insort]. by rewrite Hy, py_lt_None_r.
Qed.

(** X17. A record whose [extracted_at] is [null] is fatal as soon as the
    merged mapping holds a second record: the sort compares [None] with
    another key and [merge_events] raises [TypeError]. *)
Theorem merge_events_null_extracted_at (existing incoming : list json)
    (k : pykey) (e : json) :
  Forall (λ x, is_Some (comment_id_key x)) (existing ++ incoming) →
  merged_mapping existing incoming !! k = Some e →
  get e (str "extracted_at") (SStr []) = Ok SNone →
  (2 ≤ size (merged_mapping existing incoming))%nat →
  merge_events existing incoming = Raise TypeError.
Proof.
  intros [Hex Hinc]%Forall_app Hk He Hsize. unfold merge_events.
  rewrite foldM_events_add, bind_Ok, foldM_events_add, bind_Ok by done.
  set (d := foldl dict_add (foldl dict_add [] existing) incoming).
  assert (merged_mapping existing incoming = list_to_map d) as Hmap.
  { unfold d, merged_mapping. by rewrite !foldl_dict_add_to_map. }
  assert (NoDup d.*1) as Hnd.
  { destruct (foldl_dict_add_invariant [] existing) as [Hnd0 Hk0];
      [constructor | constructor |].
    by destruct (foldl_dict_add_invariant _ incoming Hnd0 Hk0). }
  assert (e ∈ values d) as Hin.
  { apply (getitem_opt_elem_of _ k). by rewrite getitem_opt_to_map, <- Hmap. }
  assert (2 ≤ length (values d))%nat as Hlen.
  { rewrite Hmap, map_size_list_to_map in Hsize by done.
    unfold values. by rewrite length_fmap. }
  assert (∀ x, x ∈ values d →
            ∃ key, get x (str "extracted_at") (SStr []) = Ok key ∧ True)
    as Hkeys.
  { intros x [Hx|Hx]%elem_of_foldl_dict_add.
    - apply elem_of_foldl_dict_add in Hx as [Hx|Hx];
        [by apply elem_of_nil in Hx|].
      rewrite Forall_forall in Hex. destruct (Hex x Hx) as [kx Hkx].
      destruct x; try done. eexists; split; [reflexivity | done].
    - rewrite Forall_forall in Hinc. destruct (Hinc x Hx) as [kx Hkx].
      destruct x; try done. eexists; split; [reflexivity | done]. }
  unfold sort.
  destruct (mapM_keyed (λ _, True) _ _ Hkeys) as (keyed & -> & Hsnd & Hall).
  rewrite bind_Ok, (foldM_insort_None (reverse keyed) []); [done|].
  left. split.
  - rewrite <- Hsnd in Hin. apply list_elem_of_fmap in Hin as (p & -> & Hp).
    apply Exists_exists. exists p. split; [by apply elem_of_reverse|].
    rewrite Forall_forall in Hall. destruct (Hall p Hp) as [Hkey _].
    rewrite He in Hkey. by injection Hkey.
  - right. by rewrite length_reverse, <- (length_fmap snd), Hsnd.
Qed.

Lemma merge_events_null_extracted_at_witness :
  merge_events [sample_record "a" "old" "2024-01-01T00:00:00Z";
                record_with_null_extracted_at] []
  = Raise TypeError.
Proof.
  apply (merge_events_null_extracted_at
           [sample_record "a" "old" "2024-01-01T00:00:00Z";
            record_with_null_extracted_at] []
           (KStr (str "n")) record_with_null_extracted_at).
  - repeat constructor; eexists; reflexivity.
  - reflexivity.
  - reflexivity.
  - vm_compute. lia.
Defined.

End merge_more.

(** ** The run as a whole *)

Section run_more.
Context `{Runtime}.


Lemma event_record_well_formed (now : datetime) (c : pydict) (text : pystr) :
  well_formed (JObj (event_record now c text)).
Proof. split; eexists; reflexivity. Qed.

Lemma analyze_comments_well_formed (utcnow : nat → datetime) (tick tick' : nat)
    (comments events : list pydict) :
  analyze_comments utcnow tick comments = Ok (events, tick') →
  Forall well_formed (JObj <$> events).
Proof.
  revert tick events. induction comments as [|c rest IH]; intros tick events.
  - intros [= <- <-]. constructor.
  - cbn [analyze_comments].
    intros ([e|] & Hextract & Hrest)%bind_Ok_inv; [|by eapply IH].
    apply bind_Ok_inv in Hrest as ([events' t] & Hrest & [= <- <-]).
    csimpl. constructor; [|by eapply IH].
    unfold extract_event_info in Hextract.
    destruct (dict_get c (str "text") (SStr [])) as [| | |text]; try done.
    destruct (is_spam text); [done|].
    destruct (negb (contains_future_date text)); [done|].
    destruct (negb (contains_event_keyword text)); [done|].
    injection Hextract as <-. apply event_record_well_formed.
Qed.

(** X18. Whatever the run does, its exit status is 0 or 1; when
    [save_events] is not called the file system is left as it was; and the
    list handed to [save_events], when it is called, has a [comment_id] on
    every record, no two records with the same one, and a length that
    differs from that of the loaded list. The status is then 0 and the file
    holds that list if the write goes through, and 1 otherwise. *)
Theorem main_outcome (env : environ) (d : disk)
    (build : pystr → option youtube) (utcnow : nat → datetime) :
  let o := main env d build utcnow in
  (exit_status o = 0 ∨ exit_status o = 1)
  ∧ (saved o = None → disk_after o = d)
  ∧ ∀ merged, saved o = Some merged →
      NoDup (comment_id_key <$> merged)
      ∧ Forall (λ e, is_Some (comment_id_key e)) merged
      ∧ len merged ≠ len (load_existing_events (data_file d))
      ∧ if writable d
        then exit_status o = 0
             ∧ data_file (disk_after o) = Document (JList merged)
        else exit_status o = 1
             ∧ data_file (disk_after o) = after_failed_write d.
Proof.
  assert (∀ status, status = 0 ∨ status = 1 →
    let o := {| exit_status := status; saved := None; disk_after := d |} in
    (exit_status o = 0 ∨ exit_status o = 1)
    ∧ (saved o = None → disk_after o = d)
    ∧ ∀ merged, saved o = Some merged →
        NoDup (comment_id_key <$> merged)
        ∧ Forall (λ e, is_Some (comment_id_key e)) merged
        ∧ len merged ≠ len (load_existing_events (data_file d))
        ∧ if writable d
          then exit_status o = 0
               ∧ data_file (disk_after o) = Document (JList merged)
          else exit_status o = 1
               ∧ data_file (disk_after o) = after_failed_write d) as Hleave.
  { intros status Hstatus. by repeat split. }
  unfold main.
  destruct (negb (truthy (YOUTUBE_API_KEY env))); [apply Hleave; auto|].
  destruct (build (default [] (YOUTUBE_API_KEY env))) as [yt|];
    cbn [from_option]; [|apply Hleave; auto].
  rewrite bind_Ok.
  destruct (fetch_comments _ _ _ _ _ _ _ _ _ _ _) as [[comments tick]|];
    [|apply Hleave; auto].
  rewrite bind_Ok. destruct comments as [|c cs]; [apply Hleave; auto|].
  destruct (analyze_comments utcnow tick (c :: cs)) as [[new_events t]|];
    [|apply Hleave; auto].
  rewrite bind_Ok. destruct new_events as [|e es]; [apply Hleave; auto|].
  destruct (merge_events _ _) as [merged|] eqn:Hmerge; [|apply Hleave; auto].
  rewrite bind_Ok.
  destruct (Z.eqb_spec (len merged) (len (load_existing_events (data_file d))))
    as [|Hlen]; [apply Hleave; auto|].
  apply merge_events_ids in Hmerge as [Hnd Hids].
  unfold save_events. destruct (writable d); cbn.
  - split; [by left|]. split; [done|]. by intros ? [= <-].
  - split; [by right|]. split; [done|]. by intros ? [= <-].
Qed.


Lemma foldl_dict_add_keys_extend (d0 : list (pykey * json)) (l : list json) :
  ∃ extra, (foldl dict_add d0 l).*1 = d0.*1 ++ extra
    ∧ ∀ e k, e ∈ l → comment_id_key e = Some k → k ∈ d0.*1 ++ extra.
Proof.
  revert d0. induction l as [|e l IH]; intros d0.
  - exists []. split; [by rewrite app_nil_r | by intros ? ? ?%elem_of_nil].
  - cbn [foldl]. destruct (IH (dict_add d0 e)) as (extra & Hkeys & Hin).
    assert (∃ one, (dict_add d0 e).*1 = d0.*1 ++ one
              ∧ ∀ k, comment_id_key e = Some k → k ∈ d0.*1 ++ one)
      as (one & Hone & Hk).
    { unfold dict_add. destruct (comment_id_key e) as [k|]; [|by exists []; rewrite app_nil_r].
      rewrite setitem_keys. destruct (decide (k ∈ d0.*1)).
      - exists []. rewrite app_nil_r. split; [done|]. by intros ? [= <-].
      - exists [k]. split; [done|]. intros ? [= <-].
        apply elem_of_app. right. by left. }
    exists (one ++ extra). rewrite Hkeys, Hone, <- app_assoc. split; [done|].
    intros e' k [->|He']%elem_of_cons Hid.
    + rewrite app_assoc. apply elem_of_app. left. by apply Hk.
    + rewrite app_assoc, <- Hone. by eapply Hin.
Qed.

(** When no two records of the store share an id, an incoming record whose
    id the store does not hold makes the merged list longer. *)
Lemma merge_events_grows (existing incoming merged : list json) (e : json) :
  merge_events existing incoming = Ok merged →
  NoDup (omap comment_id_key existing) →
  e ∈ incoming →
  (∀ x, x ∈ existing → comment_id_key x ≠ comment_id_key e) →
  len existing < len merged.
Proof.
  intros (Hperm & Hex & Hinc)%merge_events_Ok_inv Hnd He Hnew.
  assert ((foldl dict_add [] existing).*1 = omap comment_id_key existing)
    as Hkeys by by rewrite foldl_dict_add_keys_fresh.
  destruct (foldl_dict_add_keys_extend (foldl dict_add [] existing) incoming)
    as (extra & Hext & Hin).
  rewrite Forall_forall in Hinc. destruct (Hinc e He) as [k Hk].
  assert (k ∈ extra) as Hextra.
  { specialize (Hin e k He Hk). apply elem_of_app in Hin as [Hin|]; [|done].
    rewrite Hkeys in Hin. apply list_elem_of_omap in Hin as (x & Hx & Hid).
    destruct (Hnew x Hx). congruence. }
  unfold len. rewrite Hperm. unfold values.
  rewrite length_fmap, <- (length_fmap fst), Hext, length_app, Hkeys.
  rewrite (length_omap_Some _ _ Hex).
  destruct extra; [by apply elem_of_nil in Hextra | simpl; lia].
Qed.

(** X20. In a run that reaches the merge, if no two records of the store
    share an id and some extracted event has an id the store does not hold,
    the merged list is longer than the loaded one and is handed to
    [save_events]: a new event is not dropped. *)
Theorem new_event_is_saved (env : environ) (d : disk)
    (build : pystr → option youtube) (utcnow : nat → datetime)
    (yt : youtube) (comments new_events : list pydict) (tick tick' : nat)
    (merged : list json) (e : pydict) :
  let existing := load_existing_events (data_file d) in
  truthy (YOUTUBE_API_KEY env) = true →
  build (default [] (YOUTUBE_API_KEY env)) = Some yt →
  fetch_comments yt utcnow 0 (VIDEO_ID env) (CHANNEL_ID env) (CATEGORY_ID env)
    (search_keyword_arg (VIDEO_ID env) (CHANNEL_ID env) (CATEGORY_ID env)
       (default (str "副業") (SEARCH_KEYWORD env)))
    (default 20 (MAX_VIDEOS env)) (default 100 (MAX_RESULTS env))
    (default 10 (MIN_COMMENT_COUNT env)) (default 7 (DAYS_OLD_MAX env))
  = Ok (comments, tick) →
  comments ≠ [] →
  analyze_comments utcnow tick comments = Ok (new_events, tick') →
  merge_events existing (JObj <$> new_events) = Ok merged →
  NoDup (omap comment_id_key existing) →
  e ∈ new_events →
  (∀ x, x ∈ existing → comment_id_key x ≠ comment_id_key (JObj e)) →
  len existing < len merged
  ∧ saved (main env d build utcnow) = Some merged.
Proof.
  intros existing Hkey Hbuild Hfetch Hcomments Hanalyze Hmerge Hnd He Hnew.
  assert (len existing < len merged) as Hlen.
  { apply (merge_events_grows _ _ _ (JObj e) Hmerge Hnd); [|done].
    by apply list_elem_of_fmap_2. }
  split; [done|]. unfold main. rewrite Hkey, Hbuild. cbn [negb from_option].
  rewrite bind_Ok, Hfetch, bind_Ok. destruct comments as [|c cs]; [done|].
  rewrite Hanalyze, bind_Ok.
  destruct new_events as [|e' es]; [by apply elem_of_nil in He|].
  fold existing. rewrite Hmerge, bind_Ok.
  destruct (Z.eqb_spec (len merged) (len existing)) as [Heq|_]; [lia|].
  unfold save_events. by destruct (writable d).
Qed.

(** X21. A data file that is absent, cannot be read, is not JSON or does
    not hold a list counts as an empty store: in a run that extracts at
    least one event, the list handed to [save_events] is not empty and holds
    extracted events only, and a write that goes through replaces whatever
    the file held. *)
Theorem unusable_store_is_replaced (env : environ) (d : disk)
    (build : pystr → option youtube) (utcnow : nat → datetime)
    (yt : youtube) (comments new_events : list pydict) (tick tick' : nat) :
  truthy (YOUTUBE_API_KEY env) = true →
  build (default [] (YOUTUBE_API_KEY env)) = Some yt →
  (∀ data, data_file d ≠ Document (JList data)) →
  fetch_comments yt utcnow 0 (VIDEO_ID env) (CHANNEL_ID env) (CATEGORY_ID env)
    (search_keyword_arg (VIDEO_ID env) (CHANNEL_ID env) (CATEGORY_ID env)
       (default (str "副業") (SEARCH_KEYWORD env)))
    (default 20 (MAX_VIDEOS env)) (default 100 (MAX_RESULTS env))
    (default 10 (MIN_COMMENT_COUNT env)) (default 7 (DAYS_OLD_MAX env))
  = Ok (comments, tick) →
  analyze_comments utcnow tick comments = Ok (new_events, tick') →
  new_events ≠ [] →
  let o := main env d build utcnow in
  ∃ merged,
    saved o = Some merged
    ∧ merged ≠ []
    ∧ (∀ e, e ∈ merged → e ∈ JObj <$> new_events)
    ∧ (writable d = true →
       exit_status o = 0 ∧ data_file (disk_after o) = Document (JList merged)).
Proof.
  intros Hkey Hbuild Hfile Hfetch Hanalyze Hnew.
  assert (load_existing_events (data_file d) = []) as Hload.
  { destruct (data_file d) as [| | |[?|data|?]]; try done. by destruct (Hfile data). }
  pose proof (analyze_comments_well_formed _ _ _ _ _ Hanalyze) as Hwf.
  destruct (merge_events_ok [] (JObj <$> new_events)) as (merged & Hmerge & _);
    [constructor | done |].
  destruct new_events as [|e es]; [done|].
  assert (len ([] : list json) < len merged) as Hlen.
  { apply (merge_events_grows _ _ _ (JObj e) Hmerge); [constructor|by left|].
    by intros x ?%elem_of_nil. }
  assert (main env d build utcnow
          = let '(d', ok) := save_events d merged in
            {| exit_status := if ok then 0 else 1;
               saved := Some merged;
               disk_after := d' |}) as ->.
  { unfold main. rewrite Hkey, Hbuild, Hload. cbn [negb from_option].
    rewrite bind_Ok, Hfetch, bind_Ok.
    destruct comments as [|c cs]; [by injection Hanalyze|].
    rewrite Hanalyze, bind_Ok, Hmerge, bind_Ok.
    destruct (Z.eqb_spec (len merged) (len ([] : list json))) as [Heq|_];
      [lia|]. by destruct (save_events d merged). }
  cbn zeta. exists merged. unfold save_events.
  split; [by destruct (writable d)|].
  split; [intros ->; unfold len in Hlen; simpl in Hlen; lia|]. split.
  - intros x Hx. apply merge_events_Ok_inv in Hmerge as (Hperm & _ & _).
    rewrite Hperm in Hx.
    apply elem_of_foldl_dict_add in Hx as [Hx|Hx]; [|done].
    by apply elem_of_nil in Hx.
  - by intros ->.
Qed.

End run_more.


Lemma new_event_is_saved_witness :
  let d := sample_disk (Document
             (JList [sample_record "c9" "old" "2024-01-01T00:00:00Z"])) in
  len (load_existing_events (data_file d))
    < len [extracted_c1; sample_record "c9" "old" "2024-01-01T00:00:00Z"]
  ∧ saved (main (H := Reference.runtime) sample_environ d sample_build
             Reference.clock)
    = Some [extracted_c1; sample_record "c9" "old" "2024-01-01T00:00:00Z"].
Proof.
  apply (new_event_is_saved (H := Reference.runtime) sample_environ
           (sample_disk (Document
              (JList [sample_record "c9" "old" "2024-01-01T00:00:00Z"])))
           sample_build Reference.clock sample_youtube
           [sample_comment "c1" announcement; sample_comment "c2" "いいね"]
           [event_record (H := Reference.runtime) (Reference.clock 0)
              (sample_comment "c1" announcement) (str announcement)]
           0 1
           [extracted_c1; sample_record "c9" "old" "2024-01-01T00:00:00Z"]
           (event_record (H := Reference.runtime) (Reference.clock 0)
              (sample_comment "c1" announcement) (str announcement))).
  - reflexivity.
  - reflexivity.
  - reflexivity.
  - discriminate.
  - reflexivity.
  - reflexivity.
  - repeat constructor. by intros ?%elem_of_nil.
  - apply list_elem_of_here.
  - intros x ->%list_elem_of_singleton. discriminate.
Defined.

Lemma unusable_store_is_replaced_witness :
  let o := main (H := Reference.runtime) sample_environ (sample_disk NotJson)
             sample_build Reference.clock in
  ∃ merged,
    saved o = Some merged
    ∧ merged ≠ []
    ∧ (∀ e, e ∈ merged →
         e ∈ JObj <$> [event_record (H := Reference.runtime) (Reference.clock 0)
                         (sample_comment "c1" announcement) (str announcement)])
    ∧ (writable (sample_disk NotJson) = true →
       exit_status o = 0 ∧ data_file (disk_after o) = Document (JList merged)).
Proof.
  apply (unusable_store_is_replaced (H := Reference.runtime) sample_environ
           (sample_disk NotJson) sample_build Reference.clock sample_youtube
           [sample_comment "c1" announcement; sample_comment "c2" "いいね"]
           [event_record (H := Reference.runtime) (Reference.clock 0)
              (sample_comment "c1" announcement) (str announcement)]
           0 1).
  - reflexivity.
  - reflexivity.
  - discriminate.
  - reflexivity.
  - reflexivity.
  - discriminate.
Defined.

(** ** The date check on texts without digits *)

Section date_facts.
Context `{Runtime}.

Lemma matches_digit_decimal (m : pystr) :
  matches (Rep12 digit) m → has_decimal m.
Proof.
  unfold Rep12, digit.
  intros (m1 & m2 & -> & (c & -> & Hc)%matches_cls & _)%matches_cat.
  exists c. split; [by left | done].
Qed.

Lemma matches_cat_decimal_l (r1 r2 : regex) :
  (∀ m1, matches r1 m1 → has_decimal m1) →
  ∀ m, matches (Cat r1 r2) m → has_decimal m.
Proof.
  intros H1 m (m1 & m2 & -> & (c & Hc & Hd)%H1 & _)%matches_cat.
  exists c. split; [|done]. apply elem_of_app. by left.
Qed.

Lemma matches_cat_decimal_r (r1 r2 : regex) :
  (∀ m2, matches r2 m2 → has_decimal m2) →
  ∀ m, matches (Cat r1 r2) m → has_decimal m.
Proof.
  intros H2 m (m1 & m2 & -> & _ & (c & Hc & Hd)%H2)%matches_cat.
  exists c. split; [|done]. apply elem_of_app. by right.
Qed.

Lemma search_decimal (r : regex) (text : pystr) :
  (∀ m, matches r m → has_decimal m) →
  search r text = true → has_decimal text.
Proof.
  intros Hr (pre & m & post & -> & (c & Hc & Hd)%Hr)%search_spec.
  exists c. split; [|done]. rewrite !elem_of_app. auto.
Qed.

(** A pattern of the list either is one of the words or needs a digit. *)
Lemma date_pattern_cases (pattern : regex) :
  pattern ∈ date_patterns →
  (∃ w, w ∈ date_words ∧ pattern = lit w)
  ∨ ∀ m, matches pattern m → has_decimal m.
Proof.
  unfold date_patterns. intros Hin.
  repeat (apply elem_of_cons in Hin as [->|Hin]);
    try (by apply elem_of_nil in Hin);
    first
      [ left; eexists; split; [|reflexivity];
        unfold date_words;
        repeat first [apply list_elem_of_here | apply list_elem_of_further]
      | right;
        first
          [ apply matches_cat_decimal_l, matches_digit_decimal
          | apply matches_cat_decimal_r, matches_digit_decimal
          | apply matches_cat_decimal_r, matches_cat_decimal_l,
              matches_digit_decimal ] ].
Qed.

Lemma date_word_pattern (w : pystr) :
  w ∈ date_words → lit w ∈ date_patterns.
Proof.
  unfold date_words. intros Hin.
  repeat (apply elem_of_cons in Hin as [->|Hin]);
    try (by apply elem_of_nil in Hin);
    unfold date_patterns;
    repeat first [apply list_elem_of_here | apply list_elem_of_further].
Qed.

(** X22. A text in which no character is a decimal digit passes the date
    check exactly when it contains one of the thirteen date words; every
    other pattern needs a digit. *)
Theorem contains_future_date_words (text : pystr) :
  (∀ c, c ∈ text → isdecimal c = false) →
  contains_future_date text = true
  ↔ ∃ w, w ∈ date_words ∧ contains_str w text.
Proof.
  intros Hnone. unfold contains_future_date. rewrite existsb_exists. split.
  - intros (pattern & Hin%list_elem_of_In & Hsearch).
    destruct (date_pattern_cases pattern Hin) as [(w & Hw & ->)|Hdec].
    + exists w. split; [done|]. by apply search_lit.
    + destruct (search_decimal pattern text Hdec Hsearch) as (c & Hc & Hd).
      rewrite (Hnone c Hc) in Hd. done.
  - intros (w & Hw & Hc). exists (lit w). split.
    + apply list_elem_of_In. by apply date_word_pattern.
    + by apply search_lit.
Qed.

End date_facts.

Lemma contains_future_date_words_witness :
  contains_future_date (H := Reference.runtime) (str announcement) = true
  ↔ ∃ w, w ∈ date_words ∧ contains_str w (str announcement).
Proof.
  apply (contains_future_date_words (H := Reference.runtime)
           (str announcement)).
  intros c Hc. vm_compute in Hc.
  repeat (apply elem_of_cons in Hc as [->|Hc]); try reflexivity.
  by apply elem_of_nil in Hc.
Defined.


(** ** The keyword check *)

Section keyword_facts.
Context `{Runtime}.

Lemma startswith_app (p q s : pystr) :
  startswith (p ++ q) s = true → startswith p s = true.
Proof.
  revert s. induction p as [|a p IH]; intros s; [done|].
  destruct s as [|b s]; simpl; [done|].
  intros [-> Hrest]%andb_true_iff. by rewrite (IH s Hrest).
Qed.

Lemma contains_app (p q s : pystr) :
  contains (p ++ q) s = true → contains p s = true.
Proof.
  induction s as [|b s IH]; cbn [contains].
  - rewrite !orb_false_r. apply startswith_app.
  - intros [Hhere|Hlater]%orb_true_iff.
    + by rewrite (startswith_app _ _ _ Hhere).
    + rewrite (IH Hlater). apply orb_true_r.
Qed.

(** X23. The keyword 開催日 never decides the keyword check: a text that
    holds it holds 開催, which stands earlier in the list, so the check
    gives the same answer over the sixteen other keywords. *)
Theorem keyword_kaisaibi_is_redundant (text : pystr) :
  contains_event_keyword text
  = existsb (λ keyword, contains keyword (lower text))
            (filter (λ keyword, keyword ≠ str "開催日") event_keywords).
Proof.
  unfold contains_event_keyword. cbn zeta. set (s := lower text).
  pose proof (contains_app (str "開催") (str "日") s) as Hsub.
  let short := eval vm_compute in (str "開催") in
  change (str "開催") with short in Hsub.
  let day := eval vm_compute in (str "日") in
  change (str "日") with day in Hsub.
  cbn [app] in Hsub.
  let kept := eval vm_compute in
    (filter (λ keyword, keyword ≠ str "開催日") event_keywords) in
  change (filter _ event_keywords) with kept.
  let all := eval vm_compute in event_keywords in
  change event_keywords with all.
  cbn [existsb].
  match type of Hsub with
  | ?long = true → ?short = true =>
      destruct short eqn:Hshort; [reflexivity|];
      destruct long eqn:Hlong; [discriminate (Hsub eq_refl) | reflexivity]
  end.
Qed.

End keyword_facts.
